(** * keras_cv/models/mobilenet_v2.py: channel rounding, padding amounts and
    the inverted residual block

    A shallow embedding of [CorrectPad], [Depth] and [InvertedResBlock].

    - Python [int] is [Z]; Python [float] is IEEE 754 binary64, taken from
      the standard library's executable specification [SpecFloat] at
      precision 53 and maximal exponent 1024, so every arithmetic step of
      the source rounds here as it does in CPython.
    - Exceptions are values of [exn]; a computation that may raise returns a
      [result].
    - A closure is the code of the inner [apply] together with the frame of
      the enclosing call.  A name that the inner function assigns is a local
      of the inner function for its whole body (Python's scoping rule), it
      starts unbound, and reading it unbound raises [UnboundLocalError].
    - The Keras backend (layer classes, [backend.int_shape]) is not part of
      the repository: it is the interface [Backend].  The uid counters of
      [backend.get_uid] and the layers allocated so far form the state
      [Registry] threaded through the builders. *)

From stdpp Require Import gmap strings pretty.
From Stdlib Require Import ZArith QArith Qround List String Bool Lia.
From Stdlib Require Import Floats.SpecFloat Ascii.

Open Scope Z_scope.

(** ** Python runtime values *)

Module Py.

Inductive exn :=
| UnboundLocalError (var : string)
| TypeError
| ValueError
| OverflowError
| ZeroDivisionError
| IndexError
| BackendError (msg : string).

Inductive result (A : Type) :=
| Ok (a : A)
| Raise (e : exn).
Arguments Ok {A} a.
Arguments Raise {A} e.

Definition bind {A B : Type} (r : result A) (k : A -> result B) : result B :=
  match r with
  | Ok a => k a
  | Raise e => Raise e
  end.

(** *** binary64 *)

Definition prec : Z := 53.
Definition emax : Z := 1024.
Definition float := spec_float.

Definition fadd : float -> float -> float := SFadd prec emax.
Definition fmul : float -> float -> float := SFmul prec emax.

Definition is_infinity (f : float) : bool :=
  match f with S754_infinity _ => true | _ => false end.

(** [float(n)] for an int [n]: the nearest double, ties to even;
    [OverflowError] when the rounded value is out of range. *)
Definition float_of_int (n : Z) : result float :=
  let f := binary_normalize prec emax n 0 false in
  if is_infinity f then Raise OverflowError else Ok f.

(** [a / b] for ints [a] and [b]: the correctly rounded quotient. *)
Definition int_truediv (a b : Z) : result float :=
  if b =? 0 then Raise ZeroDivisionError
  else
    let s := xorb (a <? 0) (b <? 0) in
    if a =? 0 then Ok (S754_zero s)
    else
      let '(q, e, l) :=
        SFdiv_core_binary prec emax (Z.abs a) 0 (Z.abs b) 0 in
      let f := binary_round_aux prec emax s q e l in
      if is_infinity f then Raise OverflowError else Ok f.

(** [int(f)] for a float [f]: truncation towards zero. *)
Definition int_of_float (f : float) : result Z :=
  match f with
  | S754_nan => Raise ValueError
  | S754_infinity _ => Raise OverflowError
  | S754_zero _ => Ok 0
  | S754_finite s m e =>
      let a := if 0 <=? e then Z.shiftl (Zpos m) e
               else Z.shiftr (Zpos m) (- e) in
      Ok (cond_Zopp s a)
  end.

(** [c < f] for an int [c] and a float [f]: CPython compares the two
    exactly, without converting the int. *)
Definition int_lt_float (c : Z) (f : float) : bool :=
  match f with
  | S754_nan => false
  | S754_infinity s => negb s
  | S754_zero _ => c <? 0
  | S754_finite s m e =>
      let v := cond_Zopp s (Zpos m) in
      if 0 <=? e then c <? Z.shiftl v e
      else Z.shiftl c (- e) <? v
  end.

(** The literal [0.9]: the double nearest to 9/10. *)
Definition lit_0_9 : float := S754_finite false 8106479329266893 (-53).

(** Numbers a caller may pass where the source does arithmetic. *)
Inductive num :=
| Int (n : Z)
| Float (f : float).

(** [x + f] and [f * x] with a float [f]: an int operand is converted
    first. *)
Definition to_float (x : num) : result float :=
  match x with
  | Int n => float_of_int n
  | Float f => Ok f
  end.

Definition add_float (x : num) (f : float) : result float :=
  bind (to_float x) (fun fx => Ok (fadd fx f)).

Definition float_mul (f : float) (x : num) : result float :=
  bind (to_float x) (fun fx => Ok (fmul f fx)).

(** [n * f] for an int [n] and a float [f]. *)
Definition float_mul' (n : Z) (f : float) : result float :=
  bind (float_of_int n) (fun fn => Ok (fmul fn f)).

(** [a // b] for ints. *)
Definition int_floordiv (a b : Z) : result Z :=
  if b =? 0 then Raise ZeroDivisionError else Ok (a / b).

End Py.

Import Py.

Notation "'do' x <- c1 ; c2" := (Py.bind c1 (fun x => c2))
  (at level 10, x name, c1 at level 100, c2 at level 200).

(** ** Depth *)

(** The frame of a call [Depth(divisor, min_value, name)] once both defaults
    are filled in; the returned [apply] closes over it. *)
Record DepthFrame := {
  divisor : Z;
  min_value : Z;
  depth_name : string
}.

(** Line 133: [max(min_value, int(x + divisor / 2) // divisor * divisor)]. *)
Definition Depth_candidate (fr : DepthFrame) (x : num) : result Z :=
  do half <- int_truediv (divisor fr) 2;
  do s <- add_float x half;
  do i <- int_of_float s;
  do q <- int_floordiv i (divisor fr);
  Ok (Z.max (min_value fr) (q * divisor fr)).

(** [Depth.apply] (lines 132-138). *)
Definition Depth_apply (fr : DepthFrame) (x : num) : result Z :=
  do new_x <- Depth_candidate fr x;
  do bound <- float_mul lit_0_9 x;
  if int_lt_float new_x bound
  then Ok (new_x + divisor fr)
  else Ok new_x.

(** ** Closures, layer configurations and the backend *)

(** [kernel_size] is "an integer or tuple/list of 2 integers". *)
Inductive kernel :=
| KInt (k : Z)
| KPair (k0 k1 : Z).

(** The frame of a call [CorrectPad(kernel_size, name)]. *)
Record CorrectPadFrame := {
  kernel_size : kernel;
  correct_pad_name : string
}.

Inductive closure :=
| DepthApply (fr : DepthFrame)
| CorrectPadApply (fr : CorrectPadFrame).

(** The values the block passes as a layer's [filters] argument or compares
    with a channel count. *)
Inductive value :=
| VNone
| VInt (n : Z)
| VFunc (c : closure).

(** A dimension as [backend.int_shape] reports it: [None] when unknown. *)
Definition dim := option Z.

Definition value_of_dim (d : dim) : value :=
  match d with
  | Some n => VInt n
  | None => VNone
  end.

(** [a == b]: ints compare by value, [None] equals only [None], and a
    function object equals no int and no [None] ([int.__eq__] answers
    [NotImplemented] and the default comparison is identity). *)
Definition value_eq (a b : value) : bool :=
  match a, b with
  | VInt m, VInt n => m =? n
  | VNone, VNone => true
  | _, _ => false
  end.

(** [a * d] for an int [a] and a dimension [d]. *)
Definition int_mul_dim (a : Z) (d : dim) : result Z :=
  match d with
  | Some n => Ok (a * n)
  | None => Raise TypeError
  end.

Definition padding := ((Z * Z) * (Z * Z))%type.

(** The keyword arguments each layer class is constructed with in the
    source, in source order. *)
Inductive LayerConfig :=
| BatchNormalization (axis : Z) (epsilon momentum : float) (name : string)
| ReLU (max_value : float) (name : string)
| DepthwiseConv2D (kernel_size : Z) (strides : Z)
    (activation : option string) (use_bias : bool) (pad : string)
    (name : string)
| Conv2D (filters : value) (kernel_size : Z) (pad : string)
    (use_bias : bool) (activation : option string) (name : string)
| Add (name : string)
| ZeroPadding2D (pad : padding) (name : string).

Definition is_Conv2D (c : LayerConfig) : bool :=
  match c with Conv2D _ _ _ _ _ _ => true | _ => false end.

(** A layer object: its configuration and its allocation number. *)
Record Layer := {
  layer_id : nat;
  layer_config : LayerConfig
}.

(** Process-wide state of the backend: the counters behind
    [backend.get_uid] and the layers constructed so far, oldest first. *)
Record Registry := {
  uids : gmap string nat;
  allocated : list LayerConfig
}.

Definition empty_registry : Registry :=
  {| uids := ∅; allocated := [] |}.

(** Computations that read and update the registry and may raise; the
    registry keeps the effects made before an exception. *)
Definition M (A : Type) : Type := Registry -> result A * Registry.

Definition ret {A : Type} (a : A) : M A := fun st => (Ok a, st).

Definition lift {A : Type} (r : result A) : M A := fun st => (r, st).

Definition bindM {A B : Type} (c : M A) (k : A -> M B) : M B :=
  fun st =>
    match c st with
    | (Ok a, st') => k a st'
    | (Raise e, st') => (Raise e, st')
    end.

Notation "'run' x <- c1 ; c2" := (bindM c1 (fun x => c2))
  (at level 10, x name, c1 at level 100, c2 at level 200).

(** [backend.get_uid(prefix)]: increment the counter of [prefix] and return
    it; counters start at zero. *)
Definition get_uid (prefix : string) : M nat :=
  fun st =>
    let n := S (default 0%nat (uids st !! prefix)) in
    (Ok n, {| uids := <[prefix := n]> (uids st); allocated := allocated st |}).

(** [name] when given, otherwise [f"{prefix}_{backend.get_uid(prefix)}"]. *)
Definition default_name (name : option string) (prefix : string) : M string :=
  match name with
  | Some n => ret n
  | None =>
      run uid <- get_uid prefix;
      ret (prefix +:+ "_" +:+ pretty uid)
  end.

(** What the repository uses of Keras. *)
Class Backend := {
  Tensor : Type;
  (** [backend.int_shape(x)]: the static shape, [None] when the rank is
      unknown. *)
  int_shape : Tensor -> option (list dim);
  (** Argument validation of a layer constructor: [Some msg] when it
      raises. *)
  layer_init : LayerConfig -> option string;
  (** Calling a layer on its inputs. *)
  layer_call : Layer -> list Tensor -> result Tensor
}.

(** [Depth] (lines 114-140): returns [apply] closed over this frame. *)
Definition Depth (divisor : Z) (min_value : option Z) (name : option string)
  : M DepthFrame :=
  run name <- default_name name "depth";
  let min_value := match min_value with
                   | None => divisor
                   | Some m => m
                   end in
  ret {| divisor := divisor;
         min_value := min_value;
         depth_name := name |}.

(** [Depth(divisor, min_value)(target)], the spec's
    [round_channels(target, divisor, min_value)]. *)
Definition round_channels (target : num) (divisor : Z) (min_value : option Z)
  : M Z :=
  run apply <- Depth divisor min_value None;
  lift (Depth_apply apply target).

(** Reading a local of the running function: [UnboundLocalError] while no
    assignment has reached it. *)
Definition load_local {A : Type} (var : string) (slot : option A) : result A :=
  match slot with
  | Some a => Ok a
  | None => Raise (UnboundLocalError var)
  end.

(** [t[i]] for a tuple [t] and [0 <= i]. *)
Definition tuple_get {A : Type} (t : list A) (i : nat) : result A :=
  match nth_error t i with
  | Some a => Ok a
  | None => Raise IndexError
  end.

(** [t[-1]]. *)
Definition tuple_last {A : Type} (t : list A) : result A :=
  match rev t with
  | a :: _ => Ok a
  | [] => Raise IndexError
  end.

(** [t[lo : hi]] for [0 <= lo <= hi]: never raises. *)
Definition tuple_slice {A : Type} (t : list A) (lo hi : nat) : list A :=
  firstn (hi - lo) (skipn lo t).

(** [1 - d % 2] for a dimension [d]. *)
Definition one_minus_parity (d : dim) : result Z :=
  match d with
  | Some n => Ok (1 - n mod 2)
  | None => Raise TypeError
  end.

(** The float literals of the layer constructors. *)
Definition lit_1e_3 : float := S754_finite false 4611686018427388 (-62).
Definition lit_0_999 : float := S754_finite false 8998192055486251 (-53).
Definition lit_6_0 : float := S754_finite false 6755399441055744 (-50).

Section WithBackend.

Context {B : Backend}.

(** [backend.int_shape(x)[...]]: subscripting [None] is a [TypeError]. *)
Definition shape_of (x : Tensor) : result (list dim) :=
  match int_shape x with
  | Some sh => Ok sh
  | None => Raise TypeError
  end.

(** Constructing a layer: the backend validates the arguments, then the
    new object is recorded. *)
Definition new_layer (c : LayerConfig) : M Layer :=
  fun st =>
    match layer_init c with
    | Some msg => (Raise (BackendError msg), st)
    | None =>
        (Ok {| layer_id := List.length (allocated st); layer_config := c |},
         {| uids := uids st; allocated := allocated st ++ [c] |})
    end.

Definition call (l : Layer) (args : list Tensor) : M Tensor :=
  lift (layer_call l args).

(** *** CorrectPad *)

(** [CorrectPad] (lines 80-110): returns [apply] closed over this
    frame. *)
Definition CorrectPad (kernel_size : kernel) (name : option string)
  : M CorrectPadFrame :=
  run name <- default_name name "correct_pad";
  ret {| kernel_size := kernel_size;
         correct_pad_name := name |}.

(** [CorrectPad.apply] (lines 93-108).  Line 98 assigns [kernel_size], so
    inside [apply] the name is a local of [apply], unbound on entry, and
    the [kernel_size] of the enclosing frame [fr] is out of reach. *)
Definition CorrectPad_apply (fr : CorrectPadFrame) (x : Tensor)
  : result padding :=
  let img_dim := 1%nat in
  do sh <- shape_of x;
  let input_size := tuple_slice sh img_dim (img_dim + 2) in
  let kernel_size_slot : option kernel := None in
  do ks <- load_local "kernel_size" kernel_size_slot;
  let ks := match ks with
            | KInt k => (k, k)
            | KPair k0 k1 => (k0, k1)
            end in
  do d0 <- tuple_get input_size 0;
  do adjust <- match d0 with
               | None => Ok (1, 1)
               | Some _ =>
                   do a0 <- one_minus_parity d0;
                   do d1 <- tuple_get input_size 1;
                   do a1 <- one_minus_parity d1;
                   Ok (a0, a1)
               end;
  let correct := (fst ks / 2, snd ks / 2) in
  Ok ((fst correct - fst adjust, fst correct),
      (snd correct - snd adjust, snd correct)).

(** *** InvertedResBlock *)

Record BlockConfig := {
  expansion : Z;
  stride : Z;
  alpha : float;
  filters : Z;
  block_id : Z
}.

(** The frame of a call [InvertedResBlock(...)] when it returns; the
    returned [apply] closes over it. *)
Record BlockFrame := {
  config : BlockConfig;
  block_name : string;
  prefix : string;
  pointwise_conv_filters : Z;
  pointwise_filters : DepthFrame;
  batch_norm_1 : Layer;
  correct_pad : CorrectPadFrame;
  activation_1 : Layer;
  depthwise_conv2d_1 : Layer;
  batch_norm_2 : Layer;
  activation_2 : Layer;
  conv2d_1 : Layer;
  batch_norm_3 : Layer;
  add : Layer
}.

(** [int(filters * alpha)] (line 148). *)
Definition width (c : BlockConfig) : result Z :=
  do p <- float_mul' (filters c) (alpha c);
  int_of_float p.

(** [InvertedResBlock] up to [return apply] (lines 142-190, 230). *)
Definition InvertedResBlock (c : BlockConfig) (name : option string)
  : M BlockFrame :=
  run name <- default_name name "inverted_res_block";
  let prefix := "block_" +:+ pretty (block_id c) +:+ "_" in
  run pointwise_conv_filters <- lift (width c);
  run pointwise_filters <- Depth pointwise_conv_filters (Some 8) None;
  run batch_norm_1 <-
    new_layer (BatchNormalization (-1) lit_1e_3 lit_0_999
                 (prefix +:+ "expand_BN"));
  run correct_pad <- CorrectPad (KInt 3) None;
  run activation_1 <- new_layer (ReLU lit_6_0 (prefix +:+ "expand_relu"));
  run depthwise_conv2d_1 <-
    new_layer (DepthwiseConv2D 3 (stride c) None false
                 (if stride c =? 1 then "same" else "valid")
                 (prefix +:+ "depthwise"));
  run batch_norm_2 <-
    new_layer (BatchNormalization (-1) lit_1e_3 lit_0_999
                 (prefix +:+ "depthwise_BN"));
  run activation_2 <- new_layer (ReLU lit_6_0 (prefix +:+ "depthwise_relu"));
  run conv2d_1 <-
    new_layer (Conv2D (VFunc (DepthApply pointwise_filters)) 1 "same" false
                 None (prefix +:+ "project"));
  run batch_norm_3 <-
    new_layer (BatchNormalization (-1) lit_1e_3 lit_0_999
                 (prefix +:+ "project_BN"));
  run add <- new_layer (Add (prefix +:+ "add"));
  ret {| config := c;
         block_name := name;
         prefix := prefix;
         pointwise_conv_filters := pointwise_conv_filters;
         pointwise_filters := pointwise_filters;
         batch_norm_1 := batch_norm_1;
         correct_pad := correct_pad;
         activation_1 := activation_1;
         depthwise_conv2d_1 := depthwise_conv2d_1;
         batch_norm_2 := batch_norm_2;
         activation_2 := activation_2;
         conv2d_1 := conv2d_1;
         batch_norm_3 := batch_norm_3;
         add := add |}.

(** Line 225: [in_channels == pointwise_filters and stride == 1]. *)
Definition residual_eligible (fr : BlockFrame) (in_channels : dim) : bool :=
  value_eq (value_of_dim in_channels)
    (VFunc (DepthApply (pointwise_filters fr)))
  && (stride (config fr) =? 1).

(** [InvertedResBlock.apply] (lines 192-228).  Line 210 assigns [prefix],
    so inside [apply] the name is a local of [apply], unbound on entry;
    [prefix_slot] is that local, and the [prefix] of the enclosing frame
    [fr] is out of reach. *)
Definition InvertedResBlock_apply (fr : BlockFrame) (inputs : Tensor)
  : M Tensor :=
  let c := config fr in
  run sh <- lift (shape_of inputs);
  run in_channels <- lift (tuple_last sh);
  let x := inputs in
  let prefix_slot : option string := None in
  run xp <-
    (if negb (block_id c =? 0) then
       run n <- lift (int_mul_dim (expansion c) in_channels);
       run p <- lift (load_local "prefix" prefix_slot);
       run expand <-
         new_layer (Conv2D (VInt n) 1 "same" false None (p +:+ "expand"));
       run x <- call expand [x];
       run x <- call (batch_norm_1 fr) [x];
       run x <- call (activation_1 fr) [x];
       ret (x, prefix_slot)
     else
       ret (x, Some "expanded_conv_"));
  let '(x, prefix_slot) := xp in
  run x <-
    (if stride c =? 2 then
       run pad <- lift (CorrectPad_apply (correct_pad fr) x);
       run p <- lift (load_local "prefix" prefix_slot);
       run zero_pad <- new_layer (ZeroPadding2D pad (p +:+ "pad"));
       call zero_pad [x]
     else
       ret x);
  run x <- call (depthwise_conv2d_1 fr) [x];
  run x <- call (batch_norm_2 fr) [x];
  run x <- call (activation_2 fr) [x];
  run x <- call (conv2d_1 fr) [x];
  run x <- call (batch_norm_3 fr) [x];
  if residual_eligible fr in_channels
  then call (add fr) [inputs; x]
  else ret x.

End WithBackend.

(** ** A symbolic backend

    The functional API of Keras builds a graph of symbolic tensors: calling
    a layer returns a new node.  This instance does exactly that and infers
    the static shape of a node from the layer's configuration, channels
    last.  Its constructors make the first check Keras makes on a
    convolution: [filters] is compared with 0 (older versions convert it
    with [int]), which raises a [TypeError] on a function object.  Every
    other constructor call is accepted. *)

#[warnings="-register-all"]
Inductive SymTensor :=
| SInput (shape : list dim)
| SCall (shape : list dim) (l : Layer) (args : list SymTensor).

Definition sym_shape (t : SymTensor) : list dim :=
  match t with
  | SInput sh => sh
  | SCall sh _ _ => sh
  end.

Definition map_spatial (f g : Z -> Z) (sh : list dim) : list dim :=
  match sh with
  | [b; h; w; c] => [b; option_map f h; option_map g w; c]
  | _ => sh
  end.

Definition set_channels (c : dim) (sh : list dim) : list dim :=
  match sh with
  | [b; h; w; _] => [b; h; w; c]
  | _ => sh
  end.

Definition out_shape (c : LayerConfig) (sh : list dim) : list dim :=
  match c with
  | Conv2D (VInt n) _ _ _ _ _ => set_channels (Some n) sh
  | Conv2D _ _ _ _ _ _ => set_channels None sh
  | DepthwiseConv2D k s _ _ pad _ =>
      let f := if String.eqb pad "same"
               then fun d => (d + s - 1) / s
               else fun d => (d - k) / s + 1 in
      map_spatial f f sh
  | ZeroPadding2D ((t, b), (l, r)) _ =>
      map_spatial (fun d => d + t + b) (fun d => d + l + r) sh
  | _ => sh
  end.

#[local] Instance SymBackend : Backend := {|
  Tensor := SymTensor;
  int_shape := fun t => Some (sym_shape t);
  layer_init := fun c =>
    match c with
    | Conv2D (VFunc _) _ _ _ _ _ =>
        Some "TypeError: '<=' not supported between instances of 'function' and 'int'"
    | _ => None
    end;
  layer_call := fun l args =>
    Ok (SCall (out_shape (layer_config l)
                 (match args with t :: _ => sym_shape t | [] => [] end))
          l args)
|}.

(** [1.0] *)
Definition lit_1_0 : float := S754_finite false 4503599627370496 (-52).

(** A feature map of 32 by 32 pixels and [c] channels, batch size unknown. *)
Definition feature_map (c : Z) : SymTensor :=
  SInput [None; Some 32; Some 32; Some c].

(** ** Definitions used by the statements *)

(** The layers [InvertedResBlock] constructs before it returns, in
    construction order (lines 153-190), for the closure [pf] bound to
    [pointwise_filters]. *)
Definition block_prefix (c : BlockConfig) : string :=
  "block_" +:+ pretty (block_id c) +:+ "_".

Definition block_layers (c : BlockConfig) (pf : DepthFrame)
  : list LayerConfig :=
  let prefix := block_prefix c in
  [ BatchNormalization (-1) lit_1e_3 lit_0_999 (prefix +:+ "expand_BN");
    ReLU lit_6_0 (prefix +:+ "expand_relu");
    DepthwiseConv2D 3 (stride c) None false
      (if stride c =? 1 then "same" else "valid") (prefix +:+ "depthwise");
    BatchNormalization (-1) lit_1e_3 lit_0_999 (prefix +:+ "depthwise_BN");
    ReLU lit_6_0 (prefix +:+ "depthwise_relu");
    Conv2D (VFunc (DepthApply pf)) 1 "same" false None (prefix +:+ "project");
    BatchNormalization (-1) lit_1e_3 lit_0_999 (prefix +:+ "project_BN");
    Add (prefix +:+ "add") ].

Definition sublayers (fr : BlockFrame) : list Layer :=
  [ batch_norm_1 fr; activation_1 fr; depthwise_conv2d_1 fr; batch_norm_2 fr;
    activation_2 fr; conv2d_1 fr; batch_norm_3 fr; add fr ].

(** Configurations used as examples. *)

(** [InvertedResBlock(expansion=1, stride=1, alpha=1.0, filters=16,
    block_id=0)]: on a 16-channel input the rounded width is 16 too. *)
Definition stem_config : BlockConfig :=
  {| expansion := 1; stride := 1; alpha := lit_1_0; filters := 16;
     block_id := 0 |}.

(** [InvertedResBlock(expansion=6, stride=1, alpha=1.0, filters=16,
    block_id=1)]. *)
Definition expanding_config : BlockConfig :=
  {| expansion := 6; stride := 1; alpha := lit_1_0; filters := 16;
     block_id := 1 |}.

(** [-0.5]; and a configuration that is invalid in every respect: stride 3,
    negative [alpha] and [filters], zero [expansion]. *)
Definition lit_m0_5 : float := S754_finite true 4503599627370496 (-53).

Definition invalid_config : BlockConfig :=
  {| expansion := 0; stride := 3; alpha := lit_m0_5; filters := -4;
     block_id := 2 |}.

(** The rule of section 4.1 of the specification, read in exact rational
    arithmetic: the candidate
    [max(min_value, floor((target + divisor/2) / divisor) * divisor)],
    plus one [divisor] step when it is below [0.9 * target]. *)
Definition round_channels_spec (target divisor min_value : Z) : Z :=
  let t := inject_Z target in
  let d := inject_Z divisor in
  let candidate :=
    Z.max min_value (Qfloor ((t + d / 2) / d) * divisor) in
  match (inject_Z candidate ?= (9 # 10) * t)%Q with
  | Lt => candidate + divisor
  | _ => candidate
  end.

(** [dyadic h t] is the canonical double of value [h / 2^t], for a positive
    [h] of at most 53 bits: the mantissa is [h] shifted up to 53 bits. *)
Definition dyadic (h t : Z) : float :=
  S754_finite false (Z.to_pos (Z.shiftl h (53 - Zdigits2 h)))
    (Zdigits2 h - 53 - t).

(** ** Definitions used by the further properties *)

(** A double that is neither a NaN nor an infinity. *)
Definition is_finite (f : float) : bool :=
  match f with
  | S754_zero _ | S754_finite _ _ _ => true
  | S754_infinity _ | S754_nan => false
  end.

(** The [name] keyword a layer is constructed with. *)
Definition layer_name (c : LayerConfig) : string :=
  match c with
  | BatchNormalization _ _ _ n | ReLU _ n | DepthwiseConv2D _ _ _ _ _ n
  | Conv2D _ _ _ _ _ n | Add n | ZeroPadding2D _ n => n
  end.

(** The uid counters after one more [backend.get_uid(p)]. *)
Definition bump (p : string) (u : gmap string nat) : gmap string nat :=
  <[p := S (default 0%nat (u !! p))]> u.

(** The message of the first configuration in [l] that the backend
    rejects, and the configurations before it. *)
Fixpoint first_rejected `{Backend} (l : list LayerConfig) : option string :=
  match l with
  | [] => None
  | c :: l' =>
      match layer_init c with
      | Some msg => Some msg
      | None => first_rejected l'
      end
  end.

Fixpoint accepted_prefix `{Backend} (l : list LayerConfig)
  : list LayerConfig :=
  match l with
  | [] => []
  | c :: l' =>
      match layer_init c with
      | Some _ => []
      | None => c :: accepted_prefix l'
      end
  end.

(** The character [a] does not occur in [s]. *)
Fixpoint free_of (a : Ascii.ascii) (s : string) : Prop :=
  match s with
  | EmptyString => True
  | String c s' => c <> a /\ free_of a s'
  end.

(** What Keras does with the [filters] argument of a convolution: the
    constructor compares it with 0 (older versions convert it with [int]),
    so that a function object is rejected there with a [TypeError].  A
    backend with that property: *)
Definition rejects_function_filters (B : Backend) : Prop :=
  forall f k p u a n, @layer_init B (Conv2D (VFunc f) k p u a n) <> None.

(** The layers constructed on lines 153-175, before [project], and the
    constructor call of lines 176-183 for the closure [pf] bound to
    [pointwise_filters]. *)
Definition layers_before_project (c : BlockConfig) : list LayerConfig :=
  let prefix := block_prefix c in
  [ BatchNormalization (-1) lit_1e_3 lit_0_999 (prefix +:+ "expand_BN");
    ReLU lit_6_0 (prefix +:+ "expand_relu");
    DepthwiseConv2D 3 (stride c) None false
      (if stride c =? 1 then "same" else "valid") (prefix +:+ "depthwise");
    BatchNormalization (-1) lit_1e_3 lit_0_999 (prefix +:+ "depthwise_BN");
    ReLU lit_6_0 (prefix +:+ "depthwise_relu") ].

Definition project_config (c : BlockConfig) (pf : DepthFrame) : LayerConfig :=
  Conv2D (VFunc (DepthApply pf)) 1 "same" false None
    (block_prefix c +:+ "project").

(** The layers a computation has added to the registry [st], given the
    registry [st'] it left. *)
Definition constructed (st st' : Registry) : list LayerConfig :=
  skipn (List.length (allocated st)) (allocated st').

(** The uid counters once the builder has named itself (lines 143-144). *)
Definition named (name : option string) (u : gmap string nat)
  : gmap string nat :=
  match name with
  | Some _ => u
  | None => bump "inverted_res_block" u
  end.


(** ** Definitions used by the rounding analysis *)

(** The value of the double with mantissa [m] and exponent [e], scaled by
    [2^1200] so that it is an integer for every exponent that occurs in a
    sum or a product of doubles. *)
Definition scaled (m e : Z) : Z := m * 2 ^ (e + 1200).

(** A mantissa and an exponent in the range of binary64. *)
Definition in_range (m e : Z) : Prop :=
  0 < m < 2 ^ 53 /\ -1074 <= e <= 971.

(** [4.0] *)
Definition lit_4_0 : float := S754_finite false 4503599627370496 (-50).

(** The double of mantissa [m1] at the exponent [u], for [m1] up to
    [2^53]: zero, normalised when [m1] is [2^53], an infinity when the
    exponent is out of range. *)
Definition rounded (s : bool) (m1 u : Z) : float :=
  if m1 =? 0 then S754_zero s
  else if m1 <? 2 ^ 53
       then if u <=? 971 then S754_finite s (Z.to_pos m1) u
            else S754_infinity s
       else if u + 1 <=? 971
            then S754_finite s 4503599627370496 (u + 1)
            else S754_infinity s.

(** The targets of the bound on the result: a double that is finite and
    not negative (a Python float is a valid binary64 value), or an int
    that is not negative and converts to a double. *)
Definition nonneg_target (x : num) : Prop :=
  match x with
  | Int n => 0 <= n /\ exists f, float_of_int n = Ok f
  | Float (S754_zero _) => True
  | Float (S754_finite s m e) =>
      s = false /\ valid_binary prec emax (S754_finite s m e) = true
  | Float _ => False
  end.

(** [r >= 0.9 * x] as line 136 tests it: the comparison [r < 0.9 * x],
    with the product rounded to a double, is false; and for an int [x],
    [r >= 9 x / 10] exactly. *)
Definition not_below_nine_tenths (r : Z) (x : num) : Prop :=
  (exists bound, float_mul lit_0_9 x = Ok bound
                 /\ int_lt_float r bound = false)
  /\ match x with
     | Int n => 9 * n <= 10 * r
     | Float _ => True
     end.

(** The rule of section 4.1 on a rational target, in exact arithmetic. *)
Definition round_channels_rule (t : Q) (divisor min_value : Z) : Z :=
  let d := inject_Z divisor in
  let candidate :=
    Z.max min_value (Qfloor ((t + d / 2) / d) * divisor) in
  match (inject_Z candidate ?= (9 # 10) * t)%Q with
  | Lt => candidate + divisor
  | _ => candidate
  end.

(** The double nearest to [80 / 9]; it lies above [80 / 9]. *)
Definition lit_80_9 : float := S754_finite false 5003999585967218 (-49).

(** ** binary64 rounding, from the definitions of [SpecFloat] *)

(** The float literals of the source are the correctly rounded quotients of
    their decimal digits, as CPython's parser produces them. *)
Lemma float_literals :
  int_truediv 9 10 = Ok lit_0_9
  /\ int_truediv 1 1000 = Ok lit_1e_3
  /\ int_truediv 999 1000 = Ok lit_0_999
  /\ float_of_int 6 = Ok lit_6_0
  /\ float_of_int 1 = Ok lit_1_0
  /\ int_truediv (-1) 2 = Ok lit_m0_5.
Proof. vm_compute. repeat split. Qed.

(** On operands that are exact doubles, the quotient of two ints is the
    quotient of the two doubles. *)
Lemma int_truediv_small_sample :
  (do a <- float_of_int 9; do b <- float_of_int 10; Ok (SFdiv prec emax a b))
  = int_truediv 9 10.
Proof. vm_compute. reflexivity. Qed.

Lemma digits2_pos_size (p : positive) : digits2_pos p = Pos.size p.
Proof. induction p; simpl; congruence. Qed.

Lemma Zdigits2_log2 (m : Z) : 0 < m -> Zdigits2 m = Z.log2 m + 1.
Proof.
  destruct m as [|p|p]; try lia. intros _. simpl.
  rewrite digits2_pos_size. destruct p; simpl; lia.
Qed.

Lemma Zdigits2_bounds (m : Z) :
  0 < m -> 2 ^ (Zdigits2 m - 1) <= m < 2 ^ Zdigits2 m.
Proof.
  intros Hm. rewrite Zdigits2_log2 by assumption.
  replace (Z.log2 m + 1 - 1) with (Z.log2 m) by lia.
  replace (Z.log2 m + 1) with (Z.succ (Z.log2 m)) by lia.
  apply Z.log2_spec; assumption.
Qed.

Lemma Zdigits2_unique (m d : Z) :
  2 ^ (d - 1) <= m < 2 ^ d -> 0 < d -> Zdigits2 m = d.
Proof.
  intros H Hd.
  assert (0 < m) by (assert (0 < 2 ^ (d - 1)) by (apply Z.pow_pos_nonneg; lia); lia).
  rewrite Zdigits2_log2 by assumption.
  assert (Z.log2 m = d - 1); [|lia].
  apply Z.log2_unique; [lia|]. replace (Z.succ (d - 1)) with d by lia. assumption.
Qed.

Lemma iter_pos_nat {A : Type} (f : A -> A) (p : positive) (x : A) :
  iter_pos f p x = Nat.iter (Pos.to_nat p) f x.
Proof.
  revert x. induction p as [p IH|p IH|]; intros x; cbn [iter_pos].
  - rewrite !IH, Pos2Nat.inj_xI.
    change (Nat.iter (S (2 * Pos.to_nat p)) f x)
      with (f (Nat.iter (2 * Pos.to_nat p) f x)).
    rewrite <- Nat.iter_swap, <- Nat.iter_add. f_equal. lia.
  - rewrite !IH, Pos2Nat.inj_xO, <- Nat.iter_add. f_equal. lia.
  - reflexivity.
Qed.

Lemma shr_1_spec (m : Z) (r s : bool) :
  0 <= m ->
  shr_1 {| shr_m := m; shr_r := r; shr_s := s |}
  = {| shr_m := m / 2; shr_r := Z.odd m; shr_s := r || s |}.
Proof.
  intros Hm. destruct m as [|p|p]; [reflexivity| |lia].
  destruct p as [p|p|]; unfold shr_1.
  - f_equal. rewrite Pos2Z.inj_xI. apply Z.div_unique with 1; lia.
  - f_equal. rewrite Pos2Z.inj_xO. apply Z.div_unique with 0; lia.
  - reflexivity.
Qed.

(** [k] right shifts of an exact mantissa: the quotient, the round bit and
    the sticky bit. *)
Lemma shr_iter_spec (m : Z) (j : nat) :
  0 <= m ->
  Nat.iter (S j) shr_1 {| shr_m := m; shr_r := false; shr_s := false |}
  = {| shr_m := m / 2 ^ Z.of_nat (S j);
       shr_r := Z.testbit m (Z.of_nat j);
       shr_s := negb (m mod 2 ^ Z.of_nat j =? 0) |}.
Proof.
  intros Hm. induction j as [|j IH].
  - change (Nat.iter 1 shr_1 ?x) with (shr_1 x).
    rewrite shr_1_spec by assumption.
    change (2 ^ Z.of_nat 1) with 2. change (2 ^ Z.of_nat 0) with 1.
    rewrite Z.mod_1_r. rewrite Z.bit0_odd. reflexivity.
  - change (Nat.iter (S (S j)) shr_1 ?x) with (shr_1 (Nat.iter (S j) shr_1 x)).
    rewrite IH.
    assert (Hp : 0 < 2 ^ Z.of_nat j) by (apply Z.pow_pos_nonneg; lia).
    assert (Hp' : 0 < 2 ^ Z.of_nat (S j)) by (apply Z.pow_pos_nonneg; lia).
    rewrite shr_1_spec by (apply Z.div_pos; lia).
    f_equal.
    + rewrite Z.div_div by lia. f_equal.
      rewrite (Nat2Z.inj_succ (S j)), Z.pow_succ_r by lia. lia.
    + rewrite Z.testbit_odd, Z.shiftr_div_pow2 by lia. reflexivity.
    + replace (2 ^ Z.of_nat (S j)) with (2 ^ Z.of_nat j * 2)
        by (rewrite Nat2Z.inj_succ, Z.pow_succ_r by lia; lia).
      rewrite Z.testbit_odd, Z.shiftr_div_pow2 by lia.
      rewrite Z.rem_mul_r by lia.
      pose proof (Z.mod_pos_bound m (2 ^ Z.of_nat j) Hp).
      pose proof (Z.mod_pos_bound (m / 2 ^ Z.of_nat j) 2 ltac:(lia)) as H2.
      rewrite (Zmod_odd (m / 2 ^ Z.of_nat j)) in *.
      destruct (Z.odd (m / 2 ^ Z.of_nat j)); simpl;
        destruct (Z.eqb_spec (m mod 2 ^ Z.of_nat j) 0); simpl;
        symmetry; try (apply Z.eqb_eq; lia); try (apply negb_true_iff, Z.eqb_neq; nia);
        try (apply negb_false_iff, Z.eqb_eq; lia).
Qed.

Lemma shr_fexp_exact (m e : Z) :
  0 < m ->
  let k := fexp prec emax (Zdigits2 m + e) - e in
  shr_fexp prec emax m e loc_Exact
  = if k <=? 0
    then ({| shr_m := m; shr_r := false; shr_s := false |}, e)
    else ({| shr_m := m / 2 ^ k;
             shr_r := Z.testbit m (k - 1);
             shr_s := negb (m mod 2 ^ (k - 1) =? 0) |}, e + k).
Proof.
  intros Hm k. unfold shr_fexp. fold k.
  unfold shr, shr_record_of_loc.
  destruct k as [|p|p] eqn:Hk; try reflexivity.
  change (Z.pos p <=? 0) with false. cbv iota.
  rewrite iter_pos_nat.
  destruct (Pos2Nat.is_succ p) as [j Hj]. rewrite Hj.
  rewrite shr_iter_spec by lia.
  replace (Z.of_nat (S j)) with (Z.pos p) by lia.
  replace (Z.of_nat j) with (Z.pos p - 1) by lia.
  reflexivity.
Qed.

Lemma fexp_normal (e : Z) : -1021 <= e -> fexp prec emax e = e - 53.
Proof. unfold fexp, SpecFloat.emin, prec, emax. lia. Qed.

Lemma pow2_pos (k : Z) : 0 <= k -> 0 < 2 ^ k.
Proof. intros. apply Z.pow_pos_nonneg; lia. Qed.

(** Rounding an exact product or quotient in the normal range: the
    mantissa is cut to 53 bits and rounded to nearest, ties to even. *)
Lemma binary_round_aux_normal (s : bool) (m e : Z) :
  0 < m ->
  53 <= Zdigits2 m ->
  -1021 <= Zdigits2 m + e < 1024 ->
  let k := Zdigits2 m - 53 in
  let mrs := if k <=? 0
             then {| shr_m := m; shr_r := false; shr_s := false |}
             else {| shr_m := m / 2 ^ k;
                     shr_r := Z.testbit m (k - 1);
                     shr_s := negb (m mod 2 ^ (k - 1) =? 0) |} in
  let m1 := round_nearest_even (shr_m mrs) (loc_of_shr_record mrs) in
  exists m2 e2,
    binary_round_aux prec emax s m e loc_Exact = S754_finite s m2 e2
    /\ e + k <= e2 <= e + k + 1
    /\ Z.pos m2 * 2 ^ (e2 - (e + k)) = m1
    /\ 2 ^ 52 <= Z.pos m2 < 2 ^ 53.
Proof.
  intros Hm Hd Hr k mrs m1.
  pose proof (Zdigits2_bounds m Hm) as Hb. fold k in Hb.
  assert (Hk : 0 <= k) by (unfold k; lia).
  set (q := m / 2 ^ k).
  assert (Hq : 2 ^ 52 <= q < 2 ^ 53).
  { unfold q. pose proof (pow2_pos k Hk).
    replace (Zdigits2 m - 1) with (52 + k) in Hb by (unfold k; lia).
    replace (Zdigits2 m) with (53 + k) in Hb by (unfold k; lia).
    rewrite !Z.pow_add_r in Hb by lia. split.
    - apply Z.div_le_lower_bound; lia.
    - apply Z.div_lt_upper_bound; lia. }
  assert (Hmq : shr_m mrs = q).
  { unfold mrs, q. destruct (Z.leb_spec k 0); simpl; [|reflexivity].
    replace k with 0 by lia. rewrite Z.div_1_r. reflexivity. }
  assert (Hm1 : m1 = q \/ m1 = q + 1).
  { unfold m1. rewrite Hmq. unfold round_nearest_even.
    destruct (loc_of_shr_record mrs) as [|[]]; try destruct (Z.even q); auto. }
  assert (H1 : shr_fexp prec emax m e loc_Exact = (mrs, e + k)).
  { rewrite shr_fexp_exact by assumption.
    rewrite fexp_normal by lia.
    replace (Zdigits2 m + e - 53 - e) with k by (unfold k; lia).
    fold mrs. unfold mrs.
    destruct (Z.leb_spec k 0); [|reflexivity].
    f_equal. lia. }
  unfold binary_round_aux. rewrite H1. fold m1.
  rewrite shr_fexp_exact by lia.
  destruct (Z.eq_dec m1 (2 ^ 53)) as [Htop|Hntop].
  - (* the rounded mantissa reached 2^53 *)
    rewrite Htop.
    replace (Zdigits2 (2 ^ 53)) with 54 by reflexivity.
    rewrite fexp_normal by (unfold k; lia).
    replace (54 + (e + k) - 53 - (e + k)) with 1 by lia.
    cbn [Z.leb Z.compare]. cbv iota. cbn [shr_m].
    change (2 ^ 53 / 2 ^ 1) with (Z.pos 4503599627370496).
    cbv iota.
    replace (e + k + 1 <=? emax - prec) with true
      by (symmetry; apply Z.leb_le; unfold emax, prec, k; lia).
    exists 4503599627370496%positive, (e + k + 1).
    split; [reflexivity|]. split; [lia|].
    split; [|lia].
    replace (e + k + 1 - (e + k)) with 1 by lia. reflexivity.
  - assert (Hm1r : 2 ^ 52 <= m1 < 2 ^ 53) by lia.
    assert (Hd1 : Zdigits2 m1 = 53) by (apply Zdigits2_unique; simpl; lia).
    rewrite Hd1, fexp_normal by (unfold k; lia).
    replace (53 + (e + k) - 53 - (e + k)) with 0 by lia.
    cbn [Z.leb Z.compare]. cbv iota. cbn [shr_m].
    destruct m1 as [|p|p]; try lia.
    replace (e + k <=? emax - prec) with true
      by (symmetry; apply Z.leb_le; unfold emax, prec, k; lia).
    exists p, (e + k). split; [reflexivity|]. split; [lia|]. split; [|lia].
    rewrite Z.sub_diag. lia.
Qed.

Lemma binary_round_aux_exact (s : bool) (m e : Z) :
  0 < m ->
  53 <= Zdigits2 m ->
  -1021 <= Zdigits2 m + e < 1024 ->
  m mod 2 ^ (Zdigits2 m - 53) = 0 ->
  binary_round_aux prec emax s m e loc_Exact
  = S754_finite s (Z.to_pos (m / 2 ^ (Zdigits2 m - 53)))
      (e + (Zdigits2 m - 53)).
Proof.
  intros Hm Hd Hr Hdiv.
  destruct (binary_round_aux_normal s m e Hm Hd Hr)
    as (m2 & e2 & -> & He2 & Hval & Hm2).
  set (k := Zdigits2 m - 53) in *.
  assert (Hk : 0 <= k) by (unfold k; lia).
  assert (Hloc : (if k <=? 0
                  then {| shr_m := m; shr_r := false; shr_s := false |}
                  else {| shr_m := m / 2 ^ k;
                          shr_r := Z.testbit m (k - 1);
                          shr_s := negb (m mod 2 ^ (k - 1) =? 0) |})
                 = {| shr_m := m / 2 ^ k; shr_r := false; shr_s := false |}).
  { destruct (Z.leb_spec k 0).
    - replace k with 0 by lia. rewrite Z.div_1_r. reflexivity.
    - assert (Hlow : m mod 2 ^ (k - 1) = 0).
      { apply Z.mod_divide in Hdiv; [|pose proof (pow2_pos k); lia].
        apply Z.mod_divide; [pose proof (pow2_pos (k - 1)); lia|].
        destruct Hdiv as [c Hc]. exists (c * 2). rewrite Hc.
        replace k with (1 + (k - 1)) at 1 by lia.
        rewrite Z.pow_add_r by lia. change (2 ^ 1) with 2. lia. }
      f_equal.
      + rewrite Z.testbit_eqb by lia.
        apply Z.mod_divide in Hdiv; [|pose proof (pow2_pos k); lia].
        destruct Hdiv as [c Hc]. rewrite Hc.
        replace k with (1 + (k - 1)) at 1 by lia.
        rewrite Z.pow_add_r by lia. change (2 ^ 1) with 2.
        rewrite Z.mul_assoc, Z.div_mul by (pose proof (pow2_pos (k - 1)); lia).
        rewrite Z.mod_mul by lia. reflexivity.
      + rewrite Hlow. reflexivity. }
  rewrite Hloc in Hval. cbn [shr_m loc_of_shr_record round_nearest_even] in Hval.
  pose proof (Zdigits2_bounds m Hm) as Hb. fold k in Hb.
  assert (Hq : 2 ^ 52 <= m / 2 ^ k < 2 ^ 53).
  { pose proof (pow2_pos k Hk).
    replace (Zdigits2 m - 1) with (52 + k) in Hb by (unfold k; lia).
    replace (Zdigits2 m) with (53 + k) in Hb by (unfold k; lia).
    rewrite !Z.pow_add_r in Hb by lia. split.
    - apply Z.div_le_lower_bound; lia.
    - apply Z.div_lt_upper_bound; lia. }
  assert (e2 = e + k).
  { destruct (Z.eq_dec e2 (e + k)); [assumption|].
    replace (e2 - (e + k)) with 1 in Hval by lia.
    change (2 ^ 1) with 2 in Hval. lia. }
  subst e2. rewrite Z.sub_diag, Z.mul_1_r in Hval.
  rewrite <- Hval. reflexivity.
Qed.

Lemma Pos_iter_xO (m d : positive) :
  Z.pos (Pos.iter xO m d) = Z.pos m * 2 ^ Z.pos d.
Proof.
  induction d as [|d IH] using Pos.peano_ind.
  - cbn [Pos.iter]. rewrite Pos2Z.inj_xO. change (2 ^ 1) with 2. lia.
  - rewrite Pos.iter_succ, Pos2Z.inj_xO, IH, Pos2Z.inj_succ, Z.pow_succ_r by lia.
    lia.
Qed.

Lemma Zdigits2_shift (h t : Z) :
  0 < h -> 0 <= t -> Zdigits2 (h * 2 ^ t) = Zdigits2 h + t.
Proof.
  intros Hh Ht. pose proof (Zdigits2_bounds h Hh) as Hb.
  pose proof (pow2_pos t Ht).
  assert (0 < Zdigits2 h) by (rewrite Zdigits2_log2 by lia; pose proof (Z.log2_nonneg h); lia).
  apply Zdigits2_unique; [|lia].
  replace (Zdigits2 h + t - 1) with (Zdigits2 h - 1 + t) by lia.
  rewrite !Z.pow_add_r by lia. nia.
Qed.

(** Rounding a value that fits in 53 bits returns it unchanged, in
    canonical form. *)
Lemma binary_round_exact (m : positive) (e : Z) :
  let d := Zdigits2 (Z.pos m) in
  (d <= 53 \/ Z.pos m mod 2 ^ (d - 53) = 0) ->
  -1021 <= d + e < 1024 ->
  binary_round prec emax false m e
  = S754_finite false (Z.to_pos (Z.shiftl (Z.pos m) (53 - d))) (d + e - 53).
Proof.
  intros d Hfit Hr.
  unfold binary_round. change (Z.pos (digits2_pos m)) with d.
  rewrite fexp_normal by lia.
  unfold shl_align.
  destruct (d + e - 53 - e) as [|p|p] eqn:Hs.
  - rewrite binary_round_aux_exact; fold d; try lia.
    + replace (d - 53) with 0 by lia. replace (53 - d) with 0 by lia.
      rewrite Z.div_1_r, Z.shiftl_0_r. f_equal. lia.
    + replace (d - 53) with 0 by lia. apply Z.mod_1_r.
  - assert (Hdiv : Z.pos m mod 2 ^ (d - 53) = 0) by (destruct Hfit; [lia|assumption]).
    rewrite binary_round_aux_exact; fold d; try lia.
    rewrite Z.shiftl_div_pow2 by lia.
    replace (- (53 - d)) with (d - 53) by lia. f_equal. lia.
  - rewrite Pos_iter_xO.
    assert (Hd : Zdigits2 (Z.pos m * 2 ^ Z.pos p) = 53).
    { rewrite Zdigits2_shift by lia. fold d. lia. }
    assert (Hpos : 0 < Z.pos m * 2 ^ Z.pos p)
      by (apply Z.mul_pos_pos; [lia|apply pow2_pos; lia]).
    rewrite binary_round_aux_exact; rewrite ?Hd;
      [|assumption|lia|lia|apply Z.mod_1_r].
    change (2 ^ (53 - 53)) with 1. rewrite Z.div_1_r.
    rewrite Z.shiftl_mul_pow2 by lia.
    replace (53 - d) with (Z.pos p) by lia. f_equal. lia.
Qed.

Lemma float_of_int_exact (n : Z) :
  0 < n < 2 ^ 53 -> float_of_int n = Ok (dyadic n 0).
Proof.
  intros Hn. unfold float_of_int, binary_normalize.
  destruct n as [|p|p]; try lia.
  pose proof (Zdigits2_bounds (Z.pos p) ltac:(lia)) as Hb.
  assert (Hd : 0 < Zdigits2 (Z.pos p) <= 53).
  { split; [simpl; lia|].
    destruct (Z.le_gt_cases (Zdigits2 (Z.pos p)) 53); [assumption|].
    assert (2 ^ 53 <= 2 ^ (Zdigits2 (Z.pos p) - 1)) by (apply Z.pow_le_mono_r; lia).
    lia. }
  rewrite binary_round_exact by lia.
  unfold dyadic. simpl is_infinity. do 2 f_equal. lia.
Qed.

Lemma Zdigits2_range (n : Z) : 0 < n < 2 ^ 53 -> 0 < Zdigits2 n <= 53.
Proof.
  intros Hn. pose proof (Zdigits2_bounds n ltac:(lia)) as Hb.
  split.
  - rewrite Zdigits2_log2 by lia. pose proof (Z.log2_nonneg n). lia.
  - destruct (Z.le_gt_cases (Zdigits2 n) 53); [assumption|].
    assert (2 ^ 53 <= 2 ^ (Zdigits2 n - 1)) by (apply Z.pow_le_mono_r; lia).
    lia.
Qed.

Lemma SFdiv_core_by_2 (d : Z) :
  0 < d < 2 ^ 53 ->
  SFdiv_core_binary prec emax d 0 2 0
  = (d * 2 ^ (54 - Zdigits2 d), Zdigits2 d - 55, loc_Exact).
Proof.
  intros Hd. pose proof (Zdigits2_range d Hd) as Hr.
  unfold SFdiv_core_binary.
  change (Zdigits2 2) with 2.
  replace (Z.min (fexp prec emax (Zdigits2 d + 0 - (2 + 0))) (0 - 0))
    with (Zdigits2 d - 55)
    by (unfold fexp, SpecFloat.emin, prec, emax; lia).
  destruct (0 - 0 - (Zdigits2 d - 55)) as [|p|p] eqn:Hs; try lia.
  rewrite Z.shiftl_mul_pow2 by lia.
  replace (Z.pos p) with (1 + (54 - Zdigits2 d)) by lia.
  rewrite Z.pow_add_r by lia. change (2 ^ 1) with 2.
  set (h := d * 2 ^ (54 - Zdigits2 d)).
  replace (d * (2 * 2 ^ (54 - Zdigits2 d))) with (h * 2) by (unfold h; lia).
  pose proof (Z.div_eucl_eq (h * 2) 2 ltac:(lia)) as Heq.
  pose proof (Z.mod_pos_bound (h * 2) 2 ltac:(lia)) as Hmod.
  unfold Z.modulo in Hmod.
  destruct (Z.div_eucl (h * 2) 2) as [q r].
  assert (r = 0) by lia. assert (q = h) by lia. subst. reflexivity.
Qed.

Lemma int_truediv_2_exact (d : Z) :
  0 < d < 2 ^ 53 -> int_truediv d 2 = Ok (dyadic d 1).
Proof.
  intros Hd. pose proof (Zdigits2_range d Hd) as Hr.
  unfold int_truediv.
  change (2 =? 0) with false. cbv iota.
  replace (d <? 0) with false by (symmetry; apply Z.ltb_ge; lia).
  replace (d =? 0) with false by (symmetry; apply Z.eqb_neq; lia).
  rewrite Z.abs_eq by lia. change (Z.abs 2) with 2.
  rewrite SFdiv_core_by_2 by assumption.
  set (h := d * 2 ^ (54 - Zdigits2 d)).
  assert (Hh : 0 < h) by (apply Z.mul_pos_pos; [lia|apply pow2_pos; lia]).
  assert (Hdh : Zdigits2 h = 54).
  { unfold h. rewrite Zdigits2_shift by lia. lia. }
  rewrite binary_round_aux_exact; rewrite ?Hdh; try lia.
  - cbn [is_infinity]. unfold dyadic. do 2 f_equal; [|lia].
    f_equal. change (2 ^ (54 - 53)) with 2.
    rewrite Z.shiftl_mul_pow2 by lia.
    unfold h. replace (54 - Zdigits2 d) with (1 + (53 - Zdigits2 d)) by lia.
    rewrite Z.pow_add_r by lia. change (2 ^ 1) with 2.
    rewrite Z.mul_assoc, (Z.mul_comm d 2), <- Z.mul_assoc, Z.mul_comm.
    apply Z.div_mul. lia.
  - change (2 ^ (54 - 53)) with 2.
    unfold h. replace (54 - Zdigits2 d) with (1 + (53 - Zdigits2 d)) by lia.
    rewrite Z.pow_add_r by lia. change (2 ^ 1) with 2.
    rewrite Z.mul_assoc, (Z.mul_comm d 2), <- Z.mul_assoc, Z.mul_comm.
    apply Z.mod_mul. lia.
Qed.

Lemma dyadic_mantissa (h : Z) :
  0 < h < 2 ^ 53 ->
  Z.pos (Z.to_pos (Z.shiftl h (53 - Zdigits2 h))) = h * 2 ^ (53 - Zdigits2 h).
Proof.
  intros Hh. pose proof (Zdigits2_range h Hh).
  rewrite Z.shiftl_mul_pow2 by lia.
  rewrite Z2Pos.id; [reflexivity|].
  apply Z.mul_pos_pos; [lia|apply pow2_pos; lia].
Qed.

Lemma shl_align_fst (m : positive) (e e' : Z) :
  e' <= e -> Z.pos (fst (shl_align m e e')) = Z.pos m * 2 ^ (e - e').
Proof.
  intros He. unfold shl_align.
  destruct (e' - e) as [|p|p] eqn:Hs; try lia.
  - replace (e - e') with 0 by lia. simpl fst. lia.
  - simpl fst. rewrite Pos_iter_xO. f_equal. f_equal. lia.
Qed.

(** [float(n) + d / 2] is exact as long as [2 * n + d] fits in 53 bits. *)
Lemma fadd_half_exact (n d : Z) :
  0 < n -> 0 < d -> 2 * n + d < 2 ^ 53 ->
  fadd (dyadic n 0) (dyadic d 1) = dyadic (2 * n + d) 1.
Proof.
  intros Hn Hd Hs.
  pose proof (Zdigits2_range n ltac:(lia)) as Hrn.
  pose proof (Zdigits2_range d ltac:(lia)) as Hrd.
  pose proof (Zdigits2_range (2 * n + d) ltac:(lia)) as Hrh.
  set (h := 2 * n + d) in *.
  unfold fadd. unfold dyadic at 1 2. unfold SFadd. cbv beta iota zeta.
  set (ex := Zdigits2 n - 53 - 0). set (ey := Zdigits2 d - 53 - 1).
  set (ez := Z.min ex ey).
  unfold cond_Zopp.
  rewrite !shl_align_fst by (unfold ez; lia).
  rewrite !dyadic_mantissa by lia.
  set (t := - ez - 1).
  assert (Ht : 0 <= t) by (unfold t, ez, ex, ey; lia).
  assert (Hsum : n * 2 ^ (53 - Zdigits2 n) * 2 ^ (ex - ez)
                 + d * 2 ^ (53 - Zdigits2 d) * 2 ^ (ey - ez) = h * 2 ^ t).
  { rewrite <- !Z.mul_assoc, <- !Z.pow_add_r by (unfold ez, ex, ey; lia).
    replace (53 - Zdigits2 n + (ex - ez)) with (1 + t) by (unfold t, ex; lia).
    replace (53 - Zdigits2 d + (ey - ez)) with t by (unfold t, ey; lia).
    rewrite Z.pow_add_r by lia. change (2 ^ 1) with 2. unfold h. lia. }
  rewrite Hsum.
  assert (Hpos : 0 < h * 2 ^ t)
    by (apply Z.mul_pos_pos; [lia|apply pow2_pos; lia]).
  unfold binary_normalize.
  destruct (h * 2 ^ t) as [|p|p] eqn:Hp; try lia.
  assert (Hdp : Zdigits2 (Z.pos p) = Zdigits2 h + t)
    by (rewrite <- Hp; apply Zdigits2_shift; lia).
  rewrite binary_round_exact; rewrite ?Hdp.
  - unfold dyadic. f_equal; [|unfold t; lia].
    f_equal. rewrite <- Hp.
    rewrite (Z.shiftl_mul_pow2 h) by lia.
    destruct (Z.le_gt_cases (Zdigits2 h + t) 53).
    + rewrite Z.shiftl_mul_pow2 by lia.
      rewrite <- Z.mul_assoc, <- Z.pow_add_r by lia. do 2 f_equal. lia.
    + rewrite Z.shiftl_div_pow2 by lia.
      replace t with ((53 - Zdigits2 h) + - (53 - (Zdigits2 h + t))) at 1 by lia.
      rewrite Z.pow_add_r, Z.mul_assoc by lia.
      apply Z.div_mul. pose proof (pow2_pos (- (53 - (Zdigits2 h + t)))). lia.
  - destruct (Z.le_gt_cases (Zdigits2 h + t) 53); [left; assumption|right].
    rewrite <- Hp.
    replace t with ((53 - Zdigits2 h) + (Zdigits2 h + t - 53)) at 1 by lia.
    rewrite Z.pow_add_r, Z.mul_assoc by lia.
    apply Z.mod_mul. pose proof (pow2_pos (Zdigits2 h + t - 53)). lia.
  - unfold t, ez, ex, ey. lia.
Qed.

Lemma int_of_float_dyadic_half (h : Z) :
  0 < h < 2 ^ 53 -> int_of_float (dyadic h 1) = Ok (h / 2).
Proof.
  intros Hh. pose proof (Zdigits2_range h Hh) as Hr.
  unfold int_of_float, dyadic.
  replace (0 <=? Zdigits2 h - 53 - 1) with false
    by (symmetry; apply Z.leb_gt; lia).
  rewrite dyadic_mantissa by assumption.
  unfold cond_Zopp. f_equal.
  rewrite Z.shiftr_div_pow2 by lia.
  replace (- (Zdigits2 h - 53 - 1)) with (1 + (53 - Zdigits2 h)) by lia.
  rewrite Z.pow_add_r by lia. change (2 ^ 1) with 2.
  pose proof (pow2_pos (53 - Zdigits2 h)).
  rewrite Z.div_mul_cancel_r by lia. reflexivity.
Qed.

Lemma pow2_lt_inv (a b : Z) : 0 <= b -> 2 ^ a < 2 ^ b -> a < b.
Proof.
  intros Hb H. destruct (Z.lt_ge_cases a b); [assumption|].
  assert (2 ^ b <= 2 ^ a) by (apply Z.pow_le_mono_r; lia). lia.
Qed.

(** The rounding analysis behind [new_x < 0.9 * x]: for an int [n] below
    [2^48] the double product [0.9 * float(n)] lies on the same side of
    every int [c] as the rational [9 n / 10]. *)
Lemma int_lt_0_9_mul (c n : Z) :
  0 < n < 2 ^ 48 ->
  int_lt_float c (fmul lit_0_9 (dyadic n 0)) = (10 * c <? 9 * n).
Proof.
  intros Hn.
  pose proof (Zdigits2_range n ltac:(lia)) as Hdn.
  assert (Hdn48 : Zdigits2 n <= 48).
  { pose proof (Zdigits2_bounds n ltac:(lia)) as Hb.
    assert (Zdigits2 n - 1 < 48) by (apply pow2_lt_inv; lia). lia. }
  set (w := 53 - Zdigits2 n).
  set (W := 2 ^ w).
  assert (HW : 0 < W) by (apply pow2_pos; unfold w; lia).
  assert (HnW : 2 ^ 52 <= n * W < 2 ^ 53).
  { pose proof (Zdigits2_bounds n ltac:(lia)) as Hb.
    assert (2 ^ (Zdigits2 n - 1) * W = 2 ^ 52)
      by (unfold W, w; rewrite <- Z.pow_add_r by lia; f_equal; lia).
    assert (2 ^ Zdigits2 n * W = 2 ^ 53)
      by (unfold W, w; rewrite <- Z.pow_add_r by lia; f_equal; lia).
    nia. }
  unfold fmul, SFmul, lit_0_9, dyadic. cbn [xorb].
  rewrite Pos2Z.inj_mul, dyadic_mantissa by lia. fold w W.
  set (A := Z.pos 8106479329266893).
  assert (HA : 10 * A = 9 * 2 ^ 53 + 2) by reflexivity.
  assert (HAr : 2 ^ 52 <= A < 2 ^ 53) by (unfold A; simpl; lia).
  set (m := A * (n * W)).
  set (e := -53 + (Zdigits2 n - 53 - 0)).
  assert (Hm : 2 ^ 104 <= m < 2 ^ 106).
  { unfold m. change (2 ^ 104) with (2 ^ 52 * 2 ^ 52).
    change (2 ^ 106) with (2 ^ 53 * 2 ^ 53). nia. }
  assert (Hm0 : 0 < m) by lia.
  pose proof (Zdigits2_bounds m Hm0) as Hbm.
  assert (HD : 105 <= Zdigits2 m <= 106).
  { assert (0 < Zdigits2 m)
      by (rewrite Zdigits2_log2 by lia; pose proof (Z.log2_nonneg m); lia).
    assert (104 < Zdigits2 m) by (apply pow2_lt_inv; lia).
    assert (Zdigits2 m - 1 < 106) by (apply pow2_lt_inv; lia). lia. }
  destruct (binary_round_aux_normal false m e Hm0 ltac:(lia) ltac:(unfold e; lia))
    as (m2 & e2 & -> & He2 & Hval & Hm2).
  set (k := Zdigits2 m - 53) in *.
  replace (k <=? 0) with false in Hval by (symmetry; apply Z.leb_gt; unfold k; lia).
  cbn [shr_m] in Hval.
  set (j := - (e + k)).
  assert (Hj : 5 <= j) by (unfold j, e, k; lia).
  set (J := 2 ^ j). set (K := 2 ^ k).
  assert (HJ : 32 <= J).
  { unfold J. change 32 with (2 ^ 5). apply Z.pow_le_mono_r; lia. }
  assert (HK : 2 ^ 52 <= K).
  { unfold K. apply Z.pow_le_mono_r; unfold k; lia. }
  assert (HJK : J * K = 2 ^ 53 * W).
  { unfold J, K, W. rewrite <- !Z.pow_add_r by (unfold k, w; lia).
    f_equal. unfold j, e, k, w. lia. }
  fold K in Hval.
  set (q := m / K) in *.
  assert (Hq : K * q <= m < K * (q + 1)).
  { unfold q. pose proof (Z.mul_div_le m K ltac:(lia)).
    pose proof (Z.mul_succ_div_gt m K ltac:(lia)). lia. }
  (* the comparison, on the rounded mantissa *)
  set (m1 := round_nearest_even q _) in Hval.
  assert (Hcmp : int_lt_float c (S754_finite false m2 e2) = (c * J <? m1)).
  { unfold int_lt_float, cond_Zopp.
    replace (0 <=? e2) with false by (symmetry; apply Z.leb_gt; unfold j in Hj; lia).
    rewrite Z.shiftl_mul_pow2 by (unfold j in Hj; lia).
    destruct (Z.eq_dec e2 (e + k)) as [->|Hne].
    - rewrite Z.sub_diag, Z.mul_1_r in Hval. rewrite Hval. reflexivity.
    - replace (e2 - (e + k)) with 1 in Hval by lia. change (2 ^ 1) with 2 in Hval.
      assert (HJ2 : J = 2 * 2 ^ (- e2)).
      { unfold J. replace j with (1 + - e2) by (unfold j; lia).
        rewrite Z.pow_add_r by (unfold j in Hj; lia). reflexivity. }
      rewrite HJ2, <- Hval.
      destruct (Z.ltb_spec (c * 2 ^ (- e2)) (Z.pos m2));
        symmetry; [apply Z.ltb_lt|apply Z.ltb_ge]; lia. }
  rewrite Hcmp.
  assert (Hm1 : q <= m1 <= q + 1).
  { unfold m1, round_nearest_even.
    match goal with |- context [loc_of_shr_record ?r] =>
      destruct (loc_of_shr_record r) as [|[]] end;
      try destruct (Z.even q); lia. }
  assert (HmA : 10 * m = 9 * 2 ^ 53 * (n * W) + 2 * (n * W)) by (unfold m; lia).
  destruct (Z.ltb_spec (10 * c) (9 * n)) as [Hlt|Hge].
  - (* 10 c < 9 n: the quotient alone exceeds c * J *)
    apply Z.ltb_lt.
    assert (K * (c * J + 1) <= m); [|nia].
    assert (10 * (c * (J * K)) + 10 * K <= 10 * m); [|lia].
    rewrite HmA, HJK.
    assert (10 * c * W <= (9 * n - 1) * W) by (apply Z.mul_le_mono_nonneg_r; lia).
    assert (10 * K <= J * K) by (apply Z.mul_le_mono_nonneg_r; lia).
    rewrite HJK in *. nia.
  - apply Z.ltb_ge.
    destruct (Z.eq_dec (10 * c) (9 * n)) as [Heq|Hneq].
    + (* 9 n / 10 is the int c: the product rounds to it *)
      assert (Hdelta : 5 * (m - c * J * K) = n * W).
      { assert (10 * (m - c * J * K) = 2 * (n * W)); [|lia].
        rewrite <- Z.mul_assoc, HJK. rewrite Z.mul_sub_distr_l, HmA.
        replace (10 * (c * (2 ^ 53 * W))) with (10 * c * (2 ^ 53 * W)) by lia.
        rewrite Heq. lia. }
      set (delta := m - c * J * K) in *.
      assert (Hd0 : 0 <= delta) by lia.
      assert (Hd1 : 2 * delta < K) by lia.
      assert (Hqc : q = c * J).
      { unfold q. symmetry. apply Z.div_unique with delta; [left; lia|].
        unfold delta. lia. }
      assert (Hbit : Z.testbit m (k - 1) = false).
      { rewrite Z.testbit_eqb by (unfold k; lia).
        assert (HK2 : K = 2 * 2 ^ (k - 1)).
        { unfold K. replace k with (1 + (k - 1)) at 1 by lia.
          rewrite Z.pow_add_r by (unfold k; lia). reflexivity. }
        assert (m / 2 ^ (k - 1) = 2 * (c * J)).
        { symmetry. apply Z.div_unique with delta; [left; lia|].
          unfold delta. rewrite HK2. lia. }
        replace (m / 2 ^ (k - 1)) with (2 * (c * J)).
        rewrite Z.mul_comm, Z.mod_mul by lia. reflexivity. }
      assert (m1 = q); [|lia].
      unfold m1. rewrite Hbit. cbn [loc_of_shr_record].
      destruct (negb (m mod 2 ^ (k - 1) =? 0)); reflexivity.
    + (* 10 c > 9 n: even the next mantissa stays below c * J *)
      assert (m < K * (c * J)); [|nia].
      assert (10 * m < 10 * (c * (J * K))); [|lia].
      rewrite HmA, HJK.
      assert ((9 * n + 1) * W <= 10 * c * W) by (apply Z.mul_le_mono_nonneg_r; lia).
      nia.
Qed.

(** ** Rounding to nearest, in general *)

Lemma fexp_ge (x : Z) : -1074 <= fexp prec emax x /\ x - 53 <= fexp prec emax x.
Proof. unfold fexp, SpecFloat.emin, prec, emax. lia. Qed.

Lemma fexp_eq (x : Z) :
  fexp prec emax x = Z.max (x - 53) (-1074).
Proof. unfold fexp, SpecFloat.emin, prec, emax. lia. Qed.

Lemma Zdigits2_nonneg (m : Z) : 0 <= Zdigits2 m.
Proof. destruct m; simpl; lia. Qed.

Lemma Zdigits2_le (m d : Z) : 0 < m -> m < 2 ^ d -> 0 <= d -> Zdigits2 m <= d.
Proof.
  intros Hm Hlt Hd. pose proof (Zdigits2_bounds m Hm) as Hb.
  destruct (Z.le_gt_cases (Zdigits2 m) d); [assumption|].
  assert (2 ^ d <= 2 ^ (Zdigits2 m - 1)) by (apply Z.pow_le_mono_r; lia).
  lia.
Qed.

Lemma testbit_mod_pow2 (m k : Z) :
  0 < k -> Z.testbit m (k - 1) = true -> m mod 2 ^ k <> 0.
Proof.
  intros Hk Hbit Hmod.
  apply Z.mod_divide in Hmod; [|pose proof (pow2_pos k); lia].
  destruct Hmod as [c Hc].
  rewrite Z.testbit_eqb in Hbit by lia.
  rewrite Hc in Hbit.
  replace k with (1 + (k - 1)) in Hbit at 1 by lia.
  rewrite Z.pow_add_r in Hbit by lia. change (2 ^ 1) with 2 in Hbit.
  rewrite Z.mul_assoc, Z.div_mul in Hbit
    by (pose proof (pow2_pos (k - 1)); lia).
  rewrite Z.mod_mul in Hbit by lia. discriminate.
Qed.

(** Rounding to nearest, in general: a positive mantissa [m] at an
    exponent [e] that is not above the canonical one is cut at the
    canonical exponent [u]; the result has the mantissa [m / 2^(u - e)] or
    the next one, the next one only when the cut lost something. *)
Lemma binary_round_aux_cases (s : bool) (m e : Z) :
  0 < m -> e <= fexp prec emax (Zdigits2 m + e) ->
  let u := fexp prec emax (Zdigits2 m + e) in
  let q := m / 2 ^ (u - e) in
  exists m1,
    (m1 = q \/ (m1 = q + 1 /\ m mod 2 ^ (u - e) <> 0))
    /\ 0 <= m1 <= 2 ^ 53
    /\ binary_round_aux prec emax s m e loc_Exact = rounded s m1 u.
Proof.
  intros Hm He u q.
  pose proof (fexp_ge (Zdigits2 m + e)) as [Hu1 Hu2]. fold u in Hu1, Hu2.
  set (k := u - e) in *.
  assert (Hk : 0 <= k) by (unfold k; lia).
  pose proof (pow2_pos k Hk) as HK.
  pose proof (Zdigits2_bounds m Hm) as Hb.
  assert (Hq : 0 <= q < 2 ^ 53).
  { unfold q. split; [apply Z.div_pos; lia|].
    apply Z.div_lt_upper_bound; [lia|].
    rewrite <- Z.pow_add_r by lia.
    assert (2 ^ Zdigits2 m <= 2 ^ (k + 53))
      by (apply Z.pow_le_mono_r; unfold k; lia).
    lia. }
  set (mrs := if k <=? 0
              then {| shr_m := m; shr_r := false; shr_s := false |}
              else {| shr_m := m / 2 ^ k;
                      shr_r := Z.testbit m (k - 1);
                      shr_s := negb (m mod 2 ^ (k - 1) =? 0) |}).
  assert (H1 : shr_fexp prec emax m e loc_Exact = (mrs, u)).
  { rewrite shr_fexp_exact by assumption. fold u k. unfold mrs.
    destruct (Z.leb_spec k 0); [|f_equal; unfold k; lia].
    f_equal. unfold k in *. lia. }
  assert (Hmq : shr_m mrs = q).
  { unfold mrs, q. destruct (Z.leb_spec k 0); simpl; [|reflexivity].
    replace k with 0 by lia. rewrite Z.div_1_r. reflexivity. }
  set (m1 := round_nearest_even (shr_m mrs) (loc_of_shr_record mrs)).
  assert (Hm1 : m1 = q \/ (m1 = q + 1 /\ m mod 2 ^ k <> 0)).
  { unfold m1. rewrite Hmq. unfold mrs.
    destruct (Z.leb_spec k 0); [left; reflexivity|].
    destruct (Z.testbit m (k - 1)) eqn:Hbit.
    - assert (m mod 2 ^ k <> 0) by (apply testbit_mod_pow2; [lia|assumption]).
      cbn [loc_of_shr_record].
      destruct (negb (m mod 2 ^ (k - 1) =? 0)); cbn [round_nearest_even];
        [right; split; [reflexivity|assumption]|].
      destruct (Z.even q); [left; reflexivity|right; split; [reflexivity|assumption]].
    - cbn [loc_of_shr_record].
      destruct (negb (m mod 2 ^ (k - 1) =? 0)); left; reflexivity. }
  exists m1. split; [exact Hm1|]. split; [lia|].
  unfold binary_round_aux, rounded. rewrite H1. fold m1.
  destruct (Z.eqb_spec m1 0) as [H0|H0].
  - rewrite H0. unfold shr_fexp. cbn [Zdigits2 shr_record_of_loc].
    unfold shr.
    destruct (fexp prec emax (0 + u) - u) as [|p|p] eqn:Hs.
    + reflexivity.
    + exfalso. rewrite fexp_eq in Hs. lia.
    + reflexivity.
  - assert (Hm1pos : 0 < m1) by lia.
    rewrite shr_fexp_exact by assumption.
    destruct (Z.ltb_spec m1 (2 ^ 53)) as [Hlt|Hge].
    + assert (Hd1 : Zdigits2 m1 <= 53) by (apply Zdigits2_le; lia).
      replace (fexp prec emax (Zdigits2 m1 + u) - u <=? 0) with true
        by (symmetry; apply Z.leb_le; rewrite fexp_eq; lia).
      cbn [shr_m]. destruct m1 as [|p|p]; try lia.
      change (emax - prec) with 971. reflexivity.
    + assert (Htop : m1 = 2 ^ 53) by lia. rewrite Htop.
      change (Zdigits2 (2 ^ 53)) with 54.
      replace (fexp prec emax (54 + u) - u) with 1
        by (rewrite fexp_eq; lia).
      cbn [Z.leb Z.compare]. cbv iota. cbn [shr_m].
      change (2 ^ 53 / 2 ^ 1) with (Z.pos 4503599627370496). cbv iota.
      change (emax - prec) with 971.
      reflexivity.
Qed.

(** *** Values *)

Lemma scaled_shift (m e j : Z) :
  -1200 <= e -> 0 <= j -> scaled (m * 2 ^ j) e = scaled m (e + j).
Proof.
  intros He Hj. unfold scaled.
  replace (e + j + 1200) with (j + (e + 1200)) by lia.
  rewrite (Z.pow_add_r 2 j (e + 1200)) by lia. ring.
Qed.

Lemma scaled_pos (m e : Z) : 0 < m -> -1200 <= e -> 0 < scaled m e.
Proof.
  intros Hm He. unfold scaled.
  apply Z.mul_pos_pos; [assumption|apply pow2_pos; lia].
Qed.

Lemma scaled_le (m1 m2 e : Z) :
  -1200 <= e -> (m1 <= m2 <-> scaled m1 e <= scaled m2 e).
Proof.
  intros He. unfold scaled. pose proof (pow2_pos (e + 1200) ltac:(lia)).
  split; intros; nia.
Qed.

Lemma scaled_lt (m1 m2 e : Z) :
  -1200 <= e -> (m1 < m2 <-> scaled m1 e < scaled m2 e).
Proof.
  intros He. unfold scaled. pose proof (pow2_pos (e + 1200) ltac:(lia)).
  split; intros; nia.
Qed.

Lemma scaled_mono_exp (m e1 e2 : Z) :
  0 <= m -> -1200 <= e1 <= e2 -> scaled m e1 <= scaled m e2.
Proof.
  intros Hm He. unfold scaled.
  apply Z.mul_le_mono_nonneg_l; [assumption|].
  apply Z.pow_le_mono_r; lia.
Qed.

(** The cut of [binary_round_aux_cases], in values: [q] at the canonical
    exponent is the largest multiple of [2^u] that is not above the
    value. *)
Lemma cut_bounds (m e u : Z) :
  0 < m -> -1200 <= e <= u ->
  let q := m / 2 ^ (u - e) in
  scaled q u <= scaled m e < scaled (q + 1) u
  /\ (m mod 2 ^ (u - e) <> 0 -> scaled q u < scaled m e).
Proof.
  intros Hm He q.
  pose proof (pow2_pos (u - e) ltac:(lia)) as HK.
  pose proof (Z.div_mod m (2 ^ (u - e)) ltac:(lia)) as Hdm.
  pose proof (Z.mod_pos_bound m (2 ^ (u - e)) HK) as Hmb.
  fold q in Hdm.
  assert (Hs : forall x, scaled x u = scaled (x * 2 ^ (u - e)) e)
    by (intros x; rewrite scaled_shift by lia; f_equal; lia).
  rewrite !Hs.
  split; [split|].
  - apply scaled_le; lia.
  - apply scaled_lt; lia.
  - intros Hne. apply scaled_lt; lia.
Qed.

(** A value of binary64 is a multiple of [2^u] as soon as its exponent is
    at least [u]. *)
Lemma scaled_multiple (ma ea u : Z) :
  -1200 <= u <= ea -> scaled ma ea = scaled (ma * 2 ^ (ea - u)) u.
Proof.
  intros H. rewrite scaled_shift by lia. f_equal. lia.
Qed.

(** Below the canonical exponent of [m * 2^e] a 53-bit mantissa stays
    below the cut. *)
Lemma finer_is_smaller (m e ma ea : Z) :
  0 < m -> -1200 <= e -> 0 < ma < 2 ^ 53 -> -1074 <= ea ->
  let u := fexp prec emax (Zdigits2 m + e) in
  e <= u -> ea < u ->
  2 ^ 52 <= m / 2 ^ (u - e)
  /\ scaled ma ea < scaled (2 ^ 52) u.
Proof.
  intros Hm He Hma Hea u Heu Hlt.
  assert (Hu : u = Zdigits2 m + e - 53) by (unfold u in *; rewrite fexp_eq in *; lia).
  pose proof (Zdigits2_bounds m Hm) as Hb.
  split.
  - apply Z.div_le_lower_bound; [apply pow2_pos; lia|].
    rewrite <- Z.pow_add_r by lia.
    replace (u - e + 52) with (Zdigits2 m - 1) by lia. lia.
  - apply Z.lt_le_trans with (scaled (2 ^ 53) ea).
    + apply scaled_lt; lia.
    + change (2 ^ 53) with (2 ^ 52 * 2 ^ 1).
      rewrite scaled_shift by lia.
      apply scaled_mono_exp; [lia|lia].
Qed.

Lemma rounded_value (s : bool) (m1 u : Z) (s2 : bool) (m2 : positive) (e2 : Z) :
  0 <= m1 <= 2 ^ 53 -> -1074 <= u ->
  rounded s m1 u = S754_finite s2 m2 e2 ->
  s2 = s /\ scaled (Z.pos m2) e2 = scaled m1 u /\ in_range (Z.pos m2) e2.
Proof.
  intros Hm1 Hu. unfold rounded.
  destruct (Z.eqb_spec m1 0); [discriminate|].
  destruct (Z.ltb_spec m1 (2 ^ 53)).
  - destruct (Z.leb_spec u 971); [|discriminate].
    intros [= <- <- <-]. rewrite Z2Pos.id by lia.
    split; [reflexivity|]. split; [reflexivity|]. unfold in_range. lia.
  - destruct (Z.leb_spec (u + 1) 971); [|discriminate].
    intros [= <- <- <-]. split; [reflexivity|].
    replace m1 with (2 ^ 53) by lia. split.
    + change (2 ^ 53) with (Z.pos 4503599627370496 * 2 ^ 1).
      rewrite scaled_shift by lia. reflexivity.
    + unfold in_range. change (Z.pos 4503599627370496) with (2 ^ 52). lia.
Qed.

(** Rounding never falls below a value of binary64 that is below the exact
    result, and never rises above one that is above it. *)
Lemma round_ge (s : bool) (m e ma ea : Z) :
  0 < m -> -1200 <= e -> e <= fexp prec emax (Zdigits2 m + e) ->
  0 < ma < 2 ^ 53 -> -1074 <= ea ->
  scaled ma ea <= scaled m e ->
  match binary_round_aux prec emax s m e loc_Exact with
  | S754_finite s2 m2 e2 =>
      s2 = s /\ scaled ma ea <= scaled (Z.pos m2) e2
      /\ in_range (Z.pos m2) e2
  | S754_infinity s2 => s2 = s
  | _ => False
  end.
Proof.
  intros Hm He Hcan Hma Hea Hle.
  destruct (binary_round_aux_cases s m e Hm Hcan) as (m1 & Hm1 & Hr & ->).
  cbv zeta in *.
  pose proof (fexp_ge (Zdigits2 m + e)) as [Hu _].
  set (u := fexp prec emax (Zdigits2 m + e)) in *.
  set (q := m / 2 ^ (u - e)) in *.
  destruct (cut_bounds m e u Hm ltac:(lia)) as [[Hlo Hhi] Hstrict].
  fold q in Hlo, Hhi, Hstrict.
  assert (Hval : scaled ma ea <= scaled m1 u).
  { destruct Hm1 as [->|[-> _]]; [|lia].
    destruct (Z.le_gt_cases u ea) as [Hcase|Hcase].
    - rewrite (scaled_multiple ma ea u) in * by lia.
      apply scaled_le; [lia|].
      assert (ma * 2 ^ (ea - u) < q + 1); [|lia].
      apply (scaled_lt _ _ u); lia.
    - destruct (finer_is_smaller m e ma ea Hm He Hma Hea Hcan Hcase)
        as [Hq Hsm]. fold u q in Hq, Hsm.
      assert (scaled (2 ^ 52) u <= scaled q u) by (apply scaled_le; lia).
      lia. }
  assert (Hpos : 0 < scaled m1 u)
    by (pose proof (scaled_pos ma ea ltac:(lia) ltac:(lia)); lia).
  assert (Hm1pos : m1 <> 0).
  { intros ->. unfold scaled in Hpos. lia. }
  destruct (rounded s m1 u) as [s2|s2| |s2 m2 e2] eqn:Hres.
  - unfold rounded in Hres.
    destruct (Z.eqb_spec m1 0); [contradiction|].
    destruct (m1 <? 2 ^ 53), (u <=? 971), (u + 1 <=? 971); discriminate.
  - unfold rounded in Hres.
    destruct (Z.eqb_spec m1 0); [contradiction|].
    destruct (m1 <? 2 ^ 53), (u <=? 971), (u + 1 <=? 971);
      try discriminate; injection Hres as <-; reflexivity.
  - unfold rounded in Hres.
    destruct (Z.eqb_spec m1 0); [contradiction|].
    destruct (m1 <? 2 ^ 53), (u <=? 971), (u + 1 <=? 971); discriminate.
  - destruct (rounded_value s m1 u s2 m2 e2 Hr Hu Hres) as (-> & Hv & Hin).
    cbv beta iota. split; [reflexivity|]. split; [lia|exact Hin].
Qed.

Lemma round_le (s : bool) (m e ma ea : Z) :
  0 < m -> -1200 <= e -> e <= fexp prec emax (Zdigits2 m + e) ->
  in_range ma ea ->
  scaled m e <= scaled ma ea ->
  match binary_round_aux prec emax s m e loc_Exact with
  | S754_finite s2 m2 e2 =>
      s2 = s /\ scaled (Z.pos m2) e2 <= scaled ma ea
      /\ in_range (Z.pos m2) e2
  | S754_zero s2 => s2 = s
  | _ => False
  end.
Proof.
  intros Hm He Hcan [Hma Hea] Hle.
  destruct (binary_round_aux_cases s m e Hm Hcan) as (m1 & Hm1 & Hr & ->).
  cbv zeta in *.
  pose proof (fexp_ge (Zdigits2 m + e)) as [Hu _].
  set (u := fexp prec emax (Zdigits2 m + e)) in *.
  set (q := m / 2 ^ (u - e)) in *.
  destruct (cut_bounds m e u Hm ltac:(lia)) as [[Hlo Hhi] Hstrict].
  fold q in Hlo, Hhi, Hstrict.
  assert (Hfine : ea < u -> False).
  { intros Hcase.
    destruct (finer_is_smaller m e ma ea Hm He Hma ltac:(lia) Hcan Hcase)
      as [Hq Hsm]. fold u q in Hq, Hsm.
    assert (scaled (2 ^ 52) u <= scaled q u) by (apply scaled_le; lia).
    lia. }
  assert (Hval : scaled m1 u <= scaled ma ea).
  { destruct Hm1 as [->|[-> Hne]]; [lia|].
    destruct (Z.le_gt_cases u ea) as [Hcase|Hcase]; [|contradiction].
    specialize (Hstrict Hne).
    rewrite (scaled_multiple ma ea u) in * by lia.
    apply scaled_le; [lia|].
    assert (q < ma * 2 ^ (ea - u)); [|lia].
    apply (scaled_lt _ _ u); lia. }
  assert (Hmax : scaled ma ea < scaled (2 ^ 53) 971).
  { apply Z.lt_le_trans with (scaled (2 ^ 53) ea).
    - apply scaled_lt; lia.
    - apply scaled_mono_exp; lia. }
  assert (Hbig : 971 < u -> False).
  { intros Hcase. apply Hfine. lia. }
  destruct (rounded s m1 u) as [s2|s2| |s2 m2 e2] eqn:Hres.
  - unfold rounded in Hres.
    destruct (m1 =? 0), (m1 <? 2 ^ 53), (u <=? 971), (u + 1 <=? 971);
      try discriminate; injection Hres as <-; reflexivity.
  - exfalso. unfold rounded in Hres.
    destruct (Z.eqb_spec m1 0); [discriminate|].
    destruct (Z.ltb_spec m1 (2 ^ 53)).
    + destruct (Z.leb_spec u 971); [discriminate|]. lia.
    + destruct (Z.leb_spec (u + 1) 971); [discriminate|].
      assert (Hu971 : u = 971) by lia. rewrite Hu971 in Hval.
      assert (scaled (2 ^ 53) 971 <= scaled m1 971) by (apply scaled_le; lia).
      lia.
  - unfold rounded in Hres.
    destruct (m1 =? 0), (m1 <? 2 ^ 53), (u <=? 971), (u + 1 <=? 971);
      discriminate.
  - destruct (rounded_value s m1 u s2 m2 e2 Hr Hu Hres) as (-> & Hv & Hin).
    cbv beta iota. split; [reflexivity|]. split; [lia|exact Hin].
Qed.

(** *** Sums, products and conversions *)

Lemma shl_align_spec (m : positive) (e e' : Z) :
  snd (shl_align m e e') = Z.min e e'
  /\ Z.pos (fst (shl_align m e e')) = Z.pos m * 2 ^ (e - Z.min e e').
Proof.
  unfold shl_align.
  destruct (e' - e) as [|p|p] eqn:Hs; cbn [fst snd].
  - replace (Z.min e e') with e by lia. rewrite Z.sub_diag. lia.
  - replace (Z.min e e') with e by lia. rewrite Z.sub_diag. lia.
  - replace (Z.min e e') with e' by lia. split; [reflexivity|].
    rewrite Pos_iter_xO. do 2 f_equal. lia.
Qed.

(** [binary_round] first brings the mantissa to the canonical exponent or
    below; the value is unchanged. *)
Lemma binary_round_aligned (s : bool) (m : positive) (e : Z) :
  -1200 <= e ->
  exists mz ez,
    binary_round prec emax s m e
    = binary_round_aux prec emax s (Z.pos mz) ez loc_Exact
    /\ scaled (Z.pos mz) ez = scaled (Z.pos m) e
    /\ -1200 <= ez
    /\ ez <= fexp prec emax (Zdigits2 (Z.pos mz) + ez).
Proof.
  intros He. unfold binary_round.
  change (Z.pos (digits2_pos m)) with (Zdigits2 (Z.pos m)).
  set (f0 := fexp prec emax (Zdigits2 (Z.pos m) + e)).
  destruct (shl_align_spec m e f0) as [Hez Hmz].
  destruct (shl_align m e f0) as [mz ez]. cbn [fst snd] in Hez, Hmz.
  pose proof (fexp_ge (Zdigits2 (Z.pos m) + e)) as [Hf0 _]. fold f0 in Hf0.
  exists mz, ez. split; [reflexivity|].
  assert (Hd : Zdigits2 (Z.pos mz) + ez = Zdigits2 (Z.pos m) + e).
  { rewrite Hmz, Zdigits2_shift by lia. lia. }
  split; [|split].
  - rewrite Hmz, scaled_shift by lia. f_equal. lia.
  - lia.
  - rewrite Hd. fold f0. lia.
Qed.

Lemma binary_round_ge (m : positive) (e ma ea : Z) :
  -1200 <= e -> 0 < ma < 2 ^ 53 -> -1074 <= ea ->
  scaled ma ea <= scaled (Z.pos m) e ->
  match binary_round prec emax false m e with
  | S754_finite s2 m2 e2 =>
      s2 = false /\ scaled ma ea <= scaled (Z.pos m2) e2
      /\ in_range (Z.pos m2) e2
  | S754_infinity s2 => s2 = false
  | _ => False
  end.
Proof.
  intros He Hma Hea Hle.
  destruct (binary_round_aligned false m e He) as (mz & ez & -> & Hv & Hez & Hcan).
  apply round_ge; try assumption; lia.
Qed.

Lemma binary_round_le (m : positive) (e ma ea : Z) :
  -1200 <= e -> in_range ma ea ->
  scaled (Z.pos m) e <= scaled ma ea ->
  match binary_round prec emax false m e with
  | S754_finite s2 m2 e2 =>
      s2 = false /\ scaled (Z.pos m2) e2 <= scaled ma ea
      /\ in_range (Z.pos m2) e2
  | S754_zero s2 => s2 = false
  | _ => False
  end.
Proof.
  intros He Hin Hle.
  destruct (binary_round_aligned false m e He) as (mz & ez & -> & Hv & Hez & Hcan).
  apply round_le; try assumption; lia.
Qed.

(** A valid double has a mantissa and an exponent in range. *)
Lemma valid_in_range (s : bool) (m : positive) (e : Z) :
  valid_binary prec emax (S754_finite s m e) = true -> in_range (Z.pos m) e.
Proof.
  unfold valid_binary, bounded, canonical_mantissa.
  intros H. apply andb_true_iff in H as [Hc He].
  apply Z.eqb_eq in Hc. apply Z.leb_le in He.
  change (Z.pos (digits2_pos m)) with (Zdigits2 (Z.pos m)) in Hc.
  change (emax - prec) with 971 in He.
  rewrite fexp_eq in Hc.
  pose proof (Zdigits2_bounds (Z.pos m) ltac:(lia)) as Hb.
  unfold in_range. split; [split; [lia|]|lia].
  assert (Zdigits2 (Z.pos m) <= 53) by lia.
  assert (2 ^ Zdigits2 (Z.pos m) <= 2 ^ 53) by (apply Z.pow_le_mono_r; lia).
  lia.
Qed.

(** The sum of two positive doubles, as a rounding of the exact sum. *)
Lemma fadd_pos (mx : positive) (ex : Z) (my : positive) (ey : Z) :
  -1200 <= ex -> -1200 <= ey ->
  exists mz ez,
    fadd (S754_finite false mx ex) (S754_finite false my ey)
    = binary_round prec emax false mz ez
    /\ -1200 <= ez
    /\ scaled (Z.pos mz) ez = scaled (Z.pos mx) ex + scaled (Z.pos my) ey.
Proof.
  intros Hex Hey. unfold fadd, SFadd. cbv beta iota zeta.
  set (ez := Z.min ex ey).
  destruct (shl_align_spec mx ex ez) as [_ Hx].
  destruct (shl_align_spec my ey ez) as [_ Hy].
  replace (Z.min ex ez) with ez in Hx by (unfold ez; lia).
  replace (Z.min ey ez) with ez in Hy by (unfold ez; lia).
  unfold cond_Zopp. rewrite <- Pos2Z.inj_add. unfold binary_normalize.
  eexists _, ez. split; [reflexivity|]. split; [unfold ez; lia|].
  rewrite Pos2Z.inj_add, Hx, Hy. unfold scaled at 1.
  rewrite Z.mul_add_distr_r.
  fold (scaled (Z.pos mx * 2 ^ (ex - ez)) ez).
  fold (scaled (Z.pos my * 2 ^ (ey - ez)) ez).
  rewrite !scaled_shift by (unfold ez; lia).
  f_equal; f_equal; lia.
Qed.

Lemma fadd_4_below_top (mx : positive) (ex : Z) :
  in_range (Z.pos mx) ex ->
  Z.pos mx <= 2 ^ 53 - 2 \/ ex <= 970 ->
  exists m2 e2,
    fadd (S754_finite false mx ex) lit_4_0 = S754_finite false m2 e2
    /\ scaled (Z.pos mx) ex <= scaled (Z.pos m2) e2
    /\ in_range (Z.pos m2) e2.
Proof.
  intros [Hmx Hex] Hbelow. unfold lit_4_0.
  destruct (fadd_pos mx ex 4503599627370496 (-50) ltac:(lia) ltac:(lia))
    as (mz & ez & -> & Hez & Hsum).
  assert (Hfour : 0 < scaled (Z.pos 4503599627370496) (-50) <= scaled 1 970).
  { split; [apply scaled_pos; lia|].
    change (Z.pos 4503599627370496) with (1 * 2 ^ 52).
    rewrite scaled_shift by lia. apply scaled_mono_exp; lia. }
  assert (Htop : scaled (Z.pos mz) ez <= scaled (2 ^ 53 - 1) 971).
  { rewrite Hsum.
    assert (Hstep : forall a, scaled a 971 = scaled (a * 2 ^ 1) 970)
      by (intros a; rewrite scaled_shift by lia; reflexivity).
    rewrite Hstep. change (2 ^ 1) with 2.
    destruct Hbelow as [Hb|Hb].
    - assert (scaled (Z.pos mx) ex <= scaled (Z.pos mx) 971)
        by (apply scaled_mono_exp; lia).
      rewrite Hstep in H. change (2 ^ 1) with 2 in H.
      assert (scaled (Z.pos mx * 2) 970 + scaled 1 970
              <= scaled ((2 ^ 53 - 1) * 2) 970); [|lia].
      unfold scaled. rewrite <- Z.mul_add_distr_r.
      apply Z.mul_le_mono_nonneg_r; [apply Z.pow_nonneg; lia|lia].
    - assert (scaled (Z.pos mx) ex <= scaled (Z.pos mx) 970)
        by (apply scaled_mono_exp; lia).
      assert (scaled (Z.pos mx) 970 + scaled 1 970
              <= scaled ((2 ^ 53 - 1) * 2) 970); [|lia].
      unfold scaled. rewrite <- Z.mul_add_distr_r.
      apply Z.mul_le_mono_nonneg_r; [apply Z.pow_nonneg; lia|lia]. }
  pose proof (binary_round_ge mz ez (Z.pos mx) ex Hez ltac:(lia) ltac:(lia)
                ltac:(lia)) as Hge.
  pose proof (binary_round_le mz ez (2 ^ 53 - 1) 971 Hez
                ltac:(unfold in_range; lia) Htop) as Hle.
  destruct (binary_round prec emax false mz ez) as [s2|s2| |s2 m2 e2];
    try contradiction.
  destruct Hge as (-> & Hv & Hin). exists m2, e2. auto.
Qed.

(** [x + 4.0] for a positive double [x]: a finite double that is not
    below [x].  The sum does not overflow: below the largest double it is
    at most the largest double, and on the largest double [4.0] is far
    less than half a unit in the last place. *)
Lemma fadd_4_ge (mx : positive) (ex : Z) :
  in_range (Z.pos mx) ex ->
  exists m2 e2,
    fadd (S754_finite false mx ex) lit_4_0 = S754_finite false m2 e2
    /\ scaled (Z.pos mx) ex <= scaled (Z.pos m2) e2
    /\ in_range (Z.pos m2) e2.
Proof.
  intros [Hmx Hex].
  destruct (Z.eq_dec (Z.pos mx) (2 ^ 53 - 1)) as [Hm|Hm];
    [destruct (Z.eq_dec ex 971) as [He|He]|].
  - injection Hm as ->. subst ex.
    exists 9007199254740991%positive, 971.
    split; [vm_compute; reflexivity|]. split; [lia|].
    unfold in_range. lia.
  - apply (fadd_4_below_top mx ex); unfold in_range; lia.
  - apply (fadd_4_below_top mx ex); unfold in_range; lia.
Qed.

(** [0.9 * x] for a positive double [x]: zero or a finite double, not
    above [x]. *)
Lemma fmul_0_9_le (mx : positive) (ex : Z) :
  in_range (Z.pos mx) ex ->
  match fmul lit_0_9 (S754_finite false mx ex) with
  | S754_finite s2 m2 e2 =>
      s2 = false /\ scaled (Z.pos m2) e2 <= scaled (Z.pos mx) ex
      /\ in_range (Z.pos m2) e2
  | S754_zero _ => True
  | _ => False
  end.
Proof.
  intros Hin. pose proof Hin as [Hmx Hex].
  unfold fmul, SFmul, lit_0_9. cbn [xorb].
  rewrite Pos2Z.inj_mul.
  set (A := Z.pos 8106479329266893).
  assert (HA : 2 ^ 52 <= A < 2 ^ 53) by (unfold A; simpl; lia).
  assert (Hm : 0 < A * Z.pos mx) by lia.
  assert (Hd : 53 <= Zdigits2 (A * Z.pos mx)).
  { pose proof (Zdigits2_bounds (A * Z.pos mx) Hm) as Hb.
    destruct (Z.le_gt_cases 53 (Zdigits2 (A * Z.pos mx))); [assumption|].
    assert (2 ^ Zdigits2 (A * Z.pos mx) <= 2 ^ 52)
      by (apply Z.pow_le_mono_r; [lia|lia]).
    nia. }
  pose proof (fexp_ge (Zdigits2 (A * Z.pos mx) + (-53 + ex))) as [_ Hf].
  assert (Hle : scaled (A * Z.pos mx) (-53 + ex) <= scaled (Z.pos mx) ex).
  { replace ex with (-53 + ex + 53) at 2 by lia.
    rewrite <- (scaled_shift (Z.pos mx) (-53 + ex) 53) by lia.
    apply scaled_le; [lia|]. nia. }
  pose proof (round_le false (A * Z.pos mx) (-53 + ex) (Z.pos mx) ex Hm
                ltac:(lia) ltac:(lia) Hin Hle) as H.
  destruct (binary_round_aux prec emax false (A * Z.pos mx) (-53 + ex)
              loc_Exact) as [s2|s2| |s2 m2 e2]; try contradiction.
  - exact I.
  - destruct H as (-> & Hv & Hr). auto.
Qed.

(** [int(f)] for a positive double: the integer part. *)
Lemma int_of_float_pos (m : positive) (e : Z) :
  -1200 <= e ->
  exists i, int_of_float (S754_finite false m e) = Ok i
            /\ 0 <= i
            /\ i * 2 ^ 1200 <= scaled (Z.pos m) e < (i + 1) * 2 ^ 1200.
Proof.
  intros He. unfold int_of_float, cond_Zopp, scaled.
  eexists. split; [reflexivity|].
  destruct (Z.leb_spec 0 e).
  - rewrite Z.shiftl_mul_pow2 by lia.
    rewrite (Z.pow_add_r 2 e 1200) by lia.
    pose proof (pow2_pos 1200 ltac:(lia)). pose proof (pow2_pos e ltac:(lia)).
    split; [nia|]. split; nia.
  - rewrite Z.shiftr_div_pow2 by lia.
    assert (H1200 : 2 ^ 1200 = 2 ^ (- e) * 2 ^ (e + 1200))
      by (rewrite <- Z.pow_add_r by lia; f_equal; lia).
    rewrite H1200.
    pose proof (pow2_pos (e + 1200) ltac:(lia)).
    pose proof (pow2_pos (- e) ltac:(lia)) as HK.
    pose proof (Z.div_mod (Z.pos m) (2 ^ (- e)) ltac:(lia)) as Hdm.
    pose proof (Z.mod_pos_bound (Z.pos m) (2 ^ (- e)) HK) as Hmb.
    set (i := Z.pos m / 2 ^ (- e)) in *.
    split; [apply Z.div_pos; lia|].
    rewrite !Z.mul_assoc. split.
    + apply Z.mul_le_mono_nonneg_r; [lia|]. lia.
    + apply Z.mul_lt_mono_pos_r; [lia|]. lia.
Qed.

(** [c < f] for an int and a positive double. *)
Lemma int_lt_float_pos (c : Z) (m : positive) (e : Z) :
  -1200 <= e ->
  int_lt_float c (S754_finite false m e)
  = (c * 2 ^ 1200 <? scaled (Z.pos m) e).
Proof.
  intros He. unfold int_lt_float, cond_Zopp, scaled.
  destruct (Z.leb_spec 0 e).
  - rewrite Z.shiftl_mul_pow2 by lia.
    rewrite Z.pow_add_r by lia. pose proof (pow2_pos 1200 ltac:(lia)).
    destruct (Z.ltb_spec c (Z.pos m * 2 ^ e));
      symmetry; [apply Z.ltb_lt|apply Z.ltb_ge]; nia.
  - rewrite Z.shiftl_mul_pow2 by lia.
    replace 1200 with (- e + (e + 1200)) at 1 by lia.
    rewrite Z.pow_add_r by lia.
    pose proof (pow2_pos (e + 1200) ltac:(lia)).
    destruct (Z.ltb_spec (c * 2 ^ (- e)) (Z.pos m));
      symmetry; [apply Z.ltb_lt|apply Z.ltb_ge]; nia.
Qed.

(** ** Depth on ints *)

Lemma round_channels_spec_eq (n d m : Z) :
  0 < d ->
  round_channels_spec n d m
  = let c := Z.max m ((2 * n + d) / (2 * d) * d) in
    if 10 * c <? 9 * n then c + d else c.
Proof.
  intros Hd. unfold round_channels_spec.
  destruct d as [|p|p]; try lia.
  unfold Qdiv, Qmult, Qplus, Qinv, inject_Z, Qfloor, Qcompare.
  cbn [Qnum Qden].
  replace ((n * Z.pos (1 * 2) + Z.pos p * 1 * 1) * 1) with (2 * n + Z.pos p) by lia.
  replace (Z.pos (1 * (1 * 2) * p)) with (2 * Z.pos p) by lia.
  cbv zeta.
  set (c := Z.max m ((2 * n + Z.pos p) / (2 * Z.pos p) * Z.pos p)).
  replace (Z.pos (10 * 1)) with 10 by reflexivity.
  replace (c * 10) with (10 * c) by lia.
  replace (9 * n * 1) with (9 * n) by lia.
  unfold Z.ltb. destruct (10 * c ?= 9 * n); reflexivity.
Qed.

Lemma Depth_candidate_int (fr : DepthFrame) (n : Z) :
  0 <= n < 2 ^ 48 -> 0 < divisor fr < 2 ^ 48 ->
  Depth_candidate fr (Int n)
  = Ok (Z.max (min_value fr)
          ((2 * n + divisor fr) / (2 * divisor fr) * divisor fr)).
Proof.
  intros Hn Hd. unfold Depth_candidate.
  rewrite int_truediv_2_exact by lia. cbn [bind].
  assert (Hsum : add_float (Int n) (dyadic (divisor fr) 1)
                 = Ok (dyadic (2 * n + divisor fr) 1)).
  { unfold add_float, to_float.
    destruct (Z.eq_dec n 0) as [->|Hn0].
    - reflexivity.
    - rewrite float_of_int_exact by lia. cbn [bind].
      rewrite fadd_half_exact by lia. reflexivity. }
  rewrite Hsum. cbn [bind].
  rewrite int_of_float_dyadic_half by lia. cbn [bind].
  unfold int_floordiv.
  replace (divisor fr =? 0) with false by (symmetry; apply Z.eqb_neq; lia).
  cbn [bind]. rewrite Z.div_div by lia. reflexivity.
Qed.

Lemma float_mul_0_9_int (c n : Z) :
  0 <= n < 2 ^ 48 ->
  exists f, float_mul lit_0_9 (Int n) = Ok f
            /\ int_lt_float c f = (10 * c <? 9 * n).
Proof.
  intros Hn. unfold float_mul, to_float.
  destruct (Z.eq_dec n 0) as [->|Hn0].
  - eexists. split; [reflexivity|].
    cbn. destruct c; reflexivity.
  - rewrite float_of_int_exact by lia. cbn [bind].
    eexists. split; [reflexivity|]. apply int_lt_0_9_mul. lia.
Qed.

(** On int targets the double arithmetic of [Depth.apply] computes the
    rule of the specification. *)
Lemma Depth_apply_int (fr : DepthFrame) (n : Z) :
  0 <= n < 2 ^ 48 -> 0 < divisor fr < 2 ^ 48 ->
  Depth_apply fr (Int n)
  = Ok (round_channels_spec n (divisor fr) (min_value fr)).
Proof.
  intros Hn Hd. unfold Depth_apply.
  rewrite Depth_candidate_int by assumption. cbn [bind].
  set (c := Z.max _ _).
  destruct (float_mul_0_9_int c n Hn) as (f & -> & Hlt). cbn [bind].
  rewrite Hlt, round_channels_spec_eq by lia. cbv zeta. fold c.
  destruct (10 * c <? 9 * n); reflexivity.
Qed.

Lemma rule_on_ints (fr : DepthFrame) (n : Z) :
  0 <= n < 2 ^ 48 -> 0 < divisor fr < 2 ^ 48 ->
  let k := (2 * n + divisor fr) / (2 * divisor fr) * divisor fr in
  let c := Z.max (min_value fr) k in
  Depth_apply fr (Int n)
  = Ok (if 10 * c <? 9 * n then c + divisor fr else c)
  /\ 2 * n - divisor fr < 2 * k <= 2 * n + divisor fr.
Proof.
  intros Hn Hd k c. split.
  - rewrite Depth_apply_int, round_channels_spec_eq by lia. reflexivity.
  - unfold k.
    pose proof (Z.div_mod (2 * n + divisor fr) (2 * divisor fr) ltac:(lia)).
    pose proof (Z.mod_pos_bound (2 * n + divisor fr) (2 * divisor fr)
                  ltac:(lia)).
    nia.
Qed.

(** ** Depth with divisor 8 on every target that is not negative *)

(** [float(n)] for a positive int that converts: a positive double, not
    below any value of binary64 that is at most [n]. *)
Lemma float_of_int_ge (n ma ea : Z) (f : float) :
  0 < n -> float_of_int n = Ok f ->
  0 < ma < 2 ^ 53 -> -1074 <= ea -> scaled ma ea <= scaled n 0 ->
  exists m2 e2,
    f = S754_finite false m2 e2 /\ in_range (Z.pos m2) e2
    /\ scaled ma ea <= scaled (Z.pos m2) e2.
Proof.
  intros Hn Hf Hma Hea Hle. unfold float_of_int, binary_normalize in Hf.
  destruct n as [|p|p]; try lia.
  pose proof (binary_round_ge p 0 ma ea ltac:(lia) Hma Hea Hle) as H.
  destruct (binary_round prec emax false p 0) as [s2|s2| |s2 m2 e2];
    try contradiction; cbn [is_infinity] in Hf; [discriminate|].
  injection Hf as <-. destruct H as (-> & Hv & Hin). eauto.
Qed.

Lemma int_truediv_8_2 : int_truediv 8 2 = Ok lit_4_0.
Proof. vm_compute. reflexivity. Qed.

(** [80 / 9] in Python is the double [lit_80_9]. *)
Lemma int_truediv_80_9 : int_truediv 80 9 = Ok lit_80_9.
Proof. vm_compute. reflexivity. Qed.

(** [Depth.apply] with divisor 8 on a target that is, or converts to, a
    positive double: it returns; the result is the candidate or the
    candidate plus 8, it is not below [min_value], the test
    [result < 0.9 * x] of line 136 would fail on it, and it exceeds
    [int(x + 4.0) - 8]. *)
Lemma Depth_apply_8_pos (fr : DepthFrame) (x : num) (mx : positive) (ex : Z) :
  divisor fr = 8 ->
  to_float x = Ok (S754_finite false mx ex) -> in_range (Z.pos mx) ex ->
  exists r i bound,
    Depth_apply fr x = Ok r
    /\ float_mul lit_0_9 x = Ok bound
    /\ int_lt_float r bound = false
    /\ min_value fr <= r
    /\ i - 7 <= r
    /\ scaled (Z.pos mx) ex < (i + 1) * 2 ^ 1200.
Proof.
  intros Hdiv Hx Hin.
  unfold Depth_apply, Depth_candidate, add_float, float_mul.
  rewrite Hdiv, Hx, int_truediv_8_2. cbn [bind].
  destruct (fadd_4_ge mx ex Hin) as (m2 & e2 & -> & Hs & [_ He2]).
  destruct (int_of_float_pos m2 e2 ltac:(lia)) as (i & -> & Hi0 & Hi).
  cbn [bind]. unfold int_floordiv. change (8 =? 0) with false. cbn [bind].
  pose proof (Z.div_mod i 8 ltac:(lia)) as Hdm.
  pose proof (Z.mod_pos_bound i 8 ltac:(lia)) as Hmb.
  assert (Hq : 0 <= i / 8 * 8) by (pose proof (Z.div_pos i 8); lia).
  set (c := Z.max (min_value fr) (i / 8 * 8)).
  assert (Hc : min_value fr <= c /\ i - 7 <= c /\ 0 <= c) by (unfold c; lia).
  pose proof (fmul_0_9_le mx ex Hin) as Hb.
  destruct (fmul lit_0_9 (S754_finite false mx ex)) as [s3|s3| |s3 m3 e3];
    try contradiction.
  - (* the product underflows to zero *)
    cbn [int_lt_float].
    replace (c <? 0) with false by (symmetry; apply Z.ltb_ge; lia).
    exists c, i, (S754_zero s3). cbn [int_lt_float].
    replace (c <? 0) with false by (symmetry; apply Z.ltb_ge; lia).
    repeat split; try reflexivity; lia.
  - destruct Hb as (-> & Hv & [_ He3]).
    rewrite int_lt_float_pos by lia.
    destruct (Z.ltb_spec (c * 2 ^ 1200) (scaled (Z.pos m3) e3)).
    + exists (c + 8), i, (S754_finite false m3 e3).
      rewrite int_lt_float_pos by lia.
      split; [reflexivity|]. split; [reflexivity|].
      split; [|lia].
      apply Z.ltb_ge.
      assert ((i + 1) * 2 ^ 1200 <= (c + 8) * 2 ^ 1200)
        by (apply Z.mul_le_mono_nonneg_r; [apply Z.pow_nonneg|]; lia).
      lia.
    + exists c, i, (S754_finite false m3 e3).
      rewrite int_lt_float_pos by lia.
      split; [reflexivity|]. split; [reflexivity|].
      split; [apply Z.ltb_ge; assumption|lia].
Qed.

(** The same on a target that is, or converts to, zero. *)
Lemma Depth_apply_8_zero (fr : DepthFrame) (x : num) (s : bool) :
  divisor fr = 8 -> to_float x = Ok (S754_zero s) ->
  Depth_apply fr x = Ok (Z.max (min_value fr) 0)
  /\ float_mul lit_0_9 x = Ok (S754_zero s)
  /\ int_lt_float (Z.max (min_value fr) 0) (S754_zero s) = false.
Proof.
  intros Hdiv Hx.
  unfold Depth_apply, Depth_candidate, add_float, float_mul.
  rewrite Hdiv, Hx, int_truediv_8_2. cbn [bind].
  assert (Hlt : int_lt_float (Z.max (min_value fr) 0) (S754_zero s) = false)
    by (cbn [int_lt_float]; apply Z.ltb_ge; lia).
  assert (Hadd : fadd (S754_zero s) lit_4_0 = lit_4_0)
    by (destruct s; reflexivity).
  assert (Hint : int_of_float lit_4_0 = Ok 4) by reflexivity.
  assert (Hmul : fmul lit_0_9 (S754_zero s) = S754_zero s)
    by (destruct s; reflexivity).
  rewrite Hadd, Hint. cbn [bind]. unfold int_floordiv.
  change (8 =? 0) with false. cbn [bind]. change (4 / 8 * 8) with 0.
  rewrite Hmul, Hlt. repeat split.
Qed.

(** [float(n)] is at least [n] with its bits below the 53rd cleared. *)
Lemma float_of_int_lower (n : Z) (f : float) :
  0 < n -> float_of_int n = Ok f ->
  exists m2 e2 j,
    f = S754_finite false m2 e2 /\ in_range (Z.pos m2) e2
    /\ 0 <= j
    /\ (n - 2 ^ j) * 2 ^ 1200 < scaled (Z.pos m2) e2
    /\ (j = 0 \/ 2 ^ 52 * 2 ^ j <= n).
Proof.
  intros Hn Hf.
  pose proof (Zdigits2_bounds n Hn) as Hb.
  set (j := Z.max 0 (Zdigits2 n - 53)).
  assert (Hj : 0 <= j) by (unfold j; lia).
  pose proof (pow2_pos j Hj) as HJ.
  pose proof (Z.div_mod n (2 ^ j) ltac:(lia)) as Hdm.
  pose proof (Z.mod_pos_bound n (2 ^ j) HJ) as Hmb.
  assert (Hbig : j = 0 \/ 2 ^ 52 * 2 ^ j <= n).
  { destruct (Z.eq_dec j 0) as [|Hne]; [left; assumption|right].
    rewrite <- Z.pow_add_r by lia.
    replace (52 + j) with (Zdigits2 n - 1) by (unfold j in *; lia). lia. }
  assert (Hlt : n < 2 ^ 53 * 2 ^ j).
  { rewrite <- Z.pow_add_r by lia.
    assert (2 ^ Zdigits2 n <= 2 ^ (53 + j))
      by (apply Z.pow_le_mono_r; unfold j; lia).
    lia. }
  assert (Hq : 0 < n / 2 ^ j < 2 ^ 53).
  { split.
    - apply Z.div_str_pos. split; [lia|].
      destruct Hbig as [->|H]; [change (2 ^ 0) with 1; lia|].
      assert (2 ^ j <= 2 ^ 52 * 2 ^ j) by nia. lia.
    - apply Z.div_lt_upper_bound; lia. }
  destruct (float_of_int_ge n (n / 2 ^ j) j f Hn Hf Hq ltac:(lia))
    as (m2 & e2 & -> & Hin & Hv).
  { replace (scaled (n / 2 ^ j) j) with (scaled (n / 2 ^ j * 2 ^ j) 0)
      by (rewrite scaled_shift by lia; reflexivity).
    apply scaled_le; lia. }
  exists m2, e2, j. split; [reflexivity|]. split; [exact Hin|].
  split; [exact Hj|]. split; [|exact Hbig].
  apply Z.lt_le_trans with (scaled (n / 2 ^ j) j); [|exact Hv].
  replace (scaled (n / 2 ^ j) j) with (scaled (n / 2 ^ j * 2 ^ j) 0)
    by (rewrite scaled_shift by lia; reflexivity).
  unfold scaled. change (0 + 1200) with 1200.
  apply Z.mul_lt_mono_pos_r; [apply pow2_pos; lia|lia].
Qed.

(** [Depth.apply] with divisor 8 on every target that is not negative:
    it returns, the result is not below [min_value] and not below nine
    tenths of the target. *)
Lemma Depth_apply_8_target (fr : DepthFrame) (x : num) :
  divisor fr = 8 -> nonneg_target x ->
  exists r, Depth_apply fr x = Ok r
            /\ min_value fr <= r
            /\ not_below_nine_tenths r x.
Proof.
  intros Hdiv Hx. destruct x as [n|f].
  - destruct Hx as [Hn [f Hf]].
    destruct (Z.eq_dec n 0) as [->|Hn0].
    + destruct (Depth_apply_8_zero fr (Int 0) false Hdiv eq_refl)
        as (Hr & Hb & Hlt).
      eexists. split; [exact Hr|]. split; [lia|].
      split; [eauto|lia].
    + destruct (float_of_int_lower n f ltac:(lia) Hf)
        as (m2 & e2 & j & -> & Hin & Hj & Hlow & Hbig).
      destruct (Depth_apply_8_pos fr (Int n) m2 e2 Hdiv Hf Hin)
        as (r & i & bound & Hr & Hb & Hlt & Hmin & Hi & Hup).
      exists r. split; [exact Hr|]. split; [exact Hmin|].
      split; [eauto|].
      destruct (Z.lt_ge_cases n (2 ^ 48)) as [Hsmall|Hlarge].
      * destruct (rule_on_ints fr n ltac:(lia) ltac:(lia)) as [Hrule Hk].
        cbv zeta in Hrule, Hk. rewrite Hrule in Hr. rewrite Hdiv in *.
        set (k := (2 * n + 8) / (2 * 8) * 8) in *.
        destruct (Z.ltb_spec (10 * Z.max (min_value fr) k) (9 * n));
          injection Hr as <-; lia.
      * assert (Hni : n - 2 ^ j < i + 1).
        { apply (Z.mul_lt_mono_pos_r (2 ^ 1200)); [apply pow2_pos; lia|lia]. }
        pose proof (pow2_pos j Hj).
        destruct Hbig as [->|Hbig]; [change (2 ^ 0) with 1 in *; lia|].
        lia.
  - destruct f as [s|s| |s m e]; try contradiction.
    + destruct (Depth_apply_8_zero fr (Float (S754_zero s)) s Hdiv eq_refl)
        as (Hr & Hb & Hlt).
      eexists. split; [exact Hr|]. split; [lia|].
      split; [eauto|exact I].
    + destruct Hx as [-> Hv]. apply valid_in_range in Hv.
      destruct (Depth_apply_8_pos fr (Float (S754_finite false m e)) m e
                  Hdiv eq_refl Hv)
        as (r & i & bound & Hr & Hb & Hlt & Hmin & _).
      exists r. split; [exact Hr|]. split; [exact Hmin|].
      split; [eauto|exact I].
Qed.

(** ** Channel rounding: the claims *)

Lemma round_channels_run (x : num) (d : Z) (m : option Z) (st : Registry) :
  exists name,
    fst (round_channels x d m st)
    = Depth_apply {| divisor := d;
                     min_value := match m with None => d | Some v => v end;
                     depth_name := name |} x.
Proof.
  exists ("depth_" +:+ pretty (S (default 0%nat (uids st !! "depth")))).
  reflexivity.
Qed.

Lemma Depth_apply_name (d m : Z) (n1 n2 : string) (x : num) :
  Depth_apply {| divisor := d; min_value := m; depth_name := n1 |} x
  = Depth_apply {| divisor := d; min_value := m; depth_name := n2 |} x.
Proof. reflexivity. Qed.

(** Sample values: [round_channels(50, 8)] is 48, [round_channels(10, 8,
    min_value=8)] is 16 (8 is below [0.9 * 10]), and on the float target
    [32 * 0.35] the result is 16. *)
Example round_channels_samples :
  fst (round_channels (Int 50) 8 None empty_registry) = Ok 48
  /\ fst (round_channels (Int 10) 8 (Some 8) empty_registry) = Ok 16
  /\ (do a <- int_truediv 35 100;
      do x <- float_mul' 32 a;
      fst (round_channels (Float x) 8 None empty_registry)) = Ok 16.
Proof. vm_compute. repeat split. Qed.

(** C4, as stated, fails: [round_channels(100, 8)] is not 96. *)
Lemma round_channels_100_is_not_96 :
  fst (round_channels (Int 100) 8 None empty_registry) <> Ok 96.
Proof. vm_compute. discriminate. Qed.

(** C4 (amended): [round_channels(100, 8)] with the default [min_value]
    returns exactly 104; the candidate before correction is 104 (100/8 =
    12.5 rounds half up to 13), and the correction does not fire because
    104 is not below [0.9 * 100]. *)
Theorem round_channels_100_is_104 (st : Registry) :
  fst (round_channels (Int 100) 8 None st) = Ok 104
  /\ (exists fr, fst (Depth 8 None None st) = Ok fr
                 /\ Depth_candidate fr (Int 100) = Ok 104)
  /\ (exists bound, float_mul lit_0_9 (Int 100) = Ok bound
                    /\ int_lt_float 104 bound = false).
Proof.
  split; [|split].
  - destruct (round_channels_run (Int 100) 8 None st) as [name ->].
    rewrite (Depth_apply_name 8 8 name "").
    vm_compute. reflexivity.
  - eexists. split; [reflexivity|]. vm_compute. reflexivity.
  - eexists. split; [vm_compute; reflexivity|]. vm_compute. reflexivity.
Qed.

Lemma Depth_apply_shape (fr : DepthFrame) (x : num) (r : Z) :
  Depth_apply fr x = Ok r ->
  r mod divisor fr = 0 \/ r = min_value fr \/ r = min_value fr + divisor fr
  \/ (r - divisor fr) mod divisor fr = 0.
Proof.
  unfold Depth_apply, Depth_candidate. intros H.
  destruct (int_truediv (divisor fr) 2) as [half|]; [|discriminate].
  cbn [bind] in H.
  destruct (add_float x half) as [s|]; [|discriminate]. cbn [bind] in H.
  destruct (int_of_float s) as [i|]; [|discriminate]. cbn [bind] in H.
  unfold int_floordiv in H.
  destruct (Z.eqb_spec (divisor fr) 0) as [|Hd]; [discriminate|].
  cbn [bind] in H.
  destruct (float_mul lit_0_9 x) as [b|]; [|discriminate]. cbn [bind] in H.
  set (k := i / divisor fr * divisor fr) in *.
  assert (Hk : k mod divisor fr = 0) by (unfold k; apply Z.mod_mul; assumption).
  destruct (int_lt_float (Z.max (min_value fr) k) b);
    injection H as <-; destruct (Z.max_spec (min_value fr) k) as [[_ ->]|[_ ->]].
  - right. right. right. replace (k + divisor fr - divisor fr) with k by lia.
    assumption.
  - right. right. left. reflexivity.
  - left. assumption.
  - right. left. reflexivity.
Qed.

(** C5, as stated, fails in three ways.  On its floor case: with
    [min_value = 9], [round_channels(11, 8, 9)] is 17, neither a multiple
    of 8 nor the given [min_value].  On a float target the result can be
    below nine tenths of the target: on the double nearest [80 / 9],
    which is [5003999585967218 / 2^49], the result is 8, and
    [8 < 0.9 * target] in exact arithmetic.  And not every target that is
    not negative gives a result: an infinite target and an int too large
    for a double raise [OverflowError]. *)
Lemma round_channels_8_bounds_fail :
  ~ (exists r, fst (round_channels (Int 11) 8 (Some 9) empty_registry) = Ok r
               /\ (r mod 8 = 0 \/ r = 9))
  /\ (fst (round_channels (Float lit_80_9) 8 None empty_registry) = Ok 8
      /\ 10 * (8 * 2 ^ 49) < 9 * 5003999585967218)
  /\ fst (round_channels (Float (S754_infinity false)) 8 None empty_registry)
     = Raise OverflowError
  /\ fst (round_channels (Int (2 ^ 1024)) 8 None empty_registry)
     = Raise OverflowError.
Proof.
  split; [|split; [|split]].
  - intros (r & Hr & Hshape).
    vm_compute in Hr. injection Hr as <-.
    destruct Hshape as [H|H]; vm_compute in H; discriminate.
  - split; [vm_compute; reflexivity|]. vm_compute. reflexivity.
  - vm_compute. reflexivity.
  - vm_compute. reflexivity.
Qed.

(** C5 (amended): for every target that is not negative, a finite double
    or an int that converts to one, [round_channels(target, divisor=8)]
    returns.  With the default [min_value] the result is a positive
    multiple of 8; with a [min_value] [m] supplied it is a multiple of 8,
    or [m], or [m + 8] (the floor raised by the correction step).  The
    result is never below nine tenths of the target as the source tests
    it: [result < 0.9 * target] is false, the product being a rounded
    double; for an int target the result is at least [0.9 * target]
    exactly. *)
Theorem round_channels_8_bounds (st : Registry) (x : num) (m : Z)
    (Hx : nonneg_target x) :
  (exists r, fst (round_channels x 8 None st) = Ok r
             /\ r mod 8 = 0 /\ 0 < r /\ not_below_nine_tenths r x)
  /\ (exists r, fst (round_channels x 8 (Some m) st) = Ok r
                /\ (r mod 8 = 0 \/ r = m \/ r = m + 8)
                /\ not_below_nine_tenths r x).
Proof.
  assert (Hshape : forall fr r,
             divisor fr = 8 -> Depth_apply fr x = Ok r ->
             r mod 8 = 0 \/ r = min_value fr \/ r = min_value fr + 8).
  { intros fr r Hdiv Hr. apply Depth_apply_shape in Hr. rewrite Hdiv in Hr.
    destruct Hr as [H|[H|[H|H]]]; auto.
    left. replace r with (r - 8 + 1 * 8) by lia.
    rewrite Z.mod_add by lia. assumption. }
  split.
  - destruct (round_channels_run x 8 None st) as [name ->].
    set (fr := {| divisor := 8; min_value := 8; depth_name := name |}).
    destruct (Depth_apply_8_target fr x eq_refl Hx) as (r & Hr & Hmin & Hb).
    exists r. split; [exact Hr|]. cbn [min_value fr] in Hmin.
    split; [|split; [lia|exact Hb]].
    destruct (Hshape fr r eq_refl Hr) as [H|[->| ->]];
      [exact H|reflexivity|reflexivity].
  - destruct (round_channels_run x 8 (Some m) st) as [name ->].
    set (fr := {| divisor := 8; min_value := m; depth_name := name |}).
    destruct (Depth_apply_8_target fr x eq_refl Hx) as (r & Hr & Hmin & Hb).
    exists r. split; [exact Hr|]. split; [|exact Hb].
    exact (Hshape fr r eq_refl Hr).
Qed.

Lemma round_channels_8_bounds_witness :
  nonneg_target (Float lit_80_9)
  /\ exists r,
       fst (round_channels (Float lit_80_9) 8 (Some 9) empty_registry) = Ok r
       /\ (r mod 8 = 0 \/ r = 9 \/ r = 9 + 8)
       /\ not_below_nine_tenths r (Float lit_80_9).
Proof.
  split; [split; reflexivity|].
  apply (round_channels_8_bounds empty_registry (Float lit_80_9) 9).
  split; reflexivity.
Defined.


Lemma round_channels_spec_rule (target divisor min_value : Z) :
  round_channels_spec target divisor min_value
  = round_channels_rule (inject_Z target) divisor min_value.
Proof. reflexivity. Qed.



(** ** The registry monad *)

Lemma Depth_ok (d : Z) (m : option Z) (name : option string) (st : Registry) :
  exists s st',
    Depth d m name st
    = (Ok {| divisor := d;
             min_value := match m with None => d | Some v => v end;
             depth_name := s |}, st')
    /\ allocated st' = allocated st.
Proof. destruct name; do 2 eexists; split; reflexivity. Qed.

Lemma default_name_run (name : option string) (p : string) (st : Registry) :
  default_name name p st
  = (Ok (match name with
         | Some n => n
         | None => p +:+ "_" +:+ pretty (S (default 0%nat (uids st !! p)))
         end),
     {| uids := match name with
                | Some _ => uids st
                | None => bump p (uids st)
                end;
        allocated := allocated st |}).
Proof. destruct st, name; reflexivity. Qed.

Lemma Depth_run (d : Z) (m : option Z) (name : option string)
    (st : Registry) :
  Depth d m name st
  = (Ok {| divisor := d;
           min_value := match m with None => d | Some v => v end;
           depth_name :=
             match name with
             | Some n => n
             | None =>
                 "depth_" +:+ pretty (S (default 0%nat (uids st !! "depth")))
             end |},
     {| uids := match name with
                | Some _ => uids st
                | None => bump "depth" (uids st)
                end;
        allocated := allocated st |}).
Proof. destruct st, name; reflexivity. Qed.

Lemma CorrectPad_ok `{Backend} (k : kernel) (name : option string)
    (st : Registry) :
  exists s st',
    CorrectPad k name st
    = (Ok {| kernel_size := k; correct_pad_name := s |}, st')
    /\ allocated st' = allocated st.
Proof. destruct name; do 2 eexists; split; reflexivity. Qed.

Lemma CorrectPad_run `{Backend} (k : kernel) (name : option string)
    (st : Registry) :
  CorrectPad k name st
  = (Ok {| kernel_size := k;
           correct_pad_name :=
             match name with
             | Some n => n
             | None =>
                 "correct_pad_"
                 +:+ pretty (S (default 0%nat (uids st !! "correct_pad")))
             end |},
     {| uids := match name with
                | Some _ => uids st
                | None => bump "correct_pad" (uids st)
                end;
        allocated := allocated st |}).
Proof. destruct st, name; reflexivity. Qed.

Ltac builder_step :=
  unfold bindM at 1;
  match goal with
  | |- context [new_layer ?c ?st] =>
      unfold new_layer at 1;
      let Hi := fresh "Hinit" in
      destruct (layer_init c) as [?msg|] eqn:Hi;
      cbv beta iota; cbn [fst snd allocated uids]
  end.

(** ** The builder, call by call *)

Lemma block_layers_split (c : BlockConfig) (pf : DepthFrame) :
  block_layers c pf
  = layers_before_project c
    ++ [ project_config c pf;
         BatchNormalization (-1) lit_1e_3 lit_0_999
           (block_prefix c +:+ "project_BN");
         Add (block_prefix c +:+ "add") ].
Proof. reflexivity. Qed.

Lemma first_rejected_app `{Backend} (l1 l2 : list LayerConfig) :
  first_rejected (l1 ++ l2)
  = match first_rejected l1 with
    | Some msg => Some msg
    | None => first_rejected l2
    end.
Proof.
  induction l1 as [|c l1 IH]; cbn [app first_rejected]; [reflexivity|].
  destruct (layer_init c); [reflexivity|exact IH].
Qed.

Lemma accepted_prefix_app `{Backend} (l1 l2 : list LayerConfig) :
  accepted_prefix (l1 ++ l2)
  = match first_rejected l1 with
    | Some _ => accepted_prefix l1
    | None => l1 ++ accepted_prefix l2
    end.
Proof.
  induction l1 as [|c l1 IH]; cbn [app first_rejected accepted_prefix];
    [reflexivity|].
  destruct (layer_init c); [reflexivity|].
  rewrite IH. destruct (first_rejected l1); reflexivity.
Qed.

Lemma accepted_prefix_firstn `{Backend} (l : list LayerConfig) :
  accepted_prefix l = firstn (List.length (accepted_prefix l)) l.
Proof.
  induction l as [|c l IH]; cbn [accepted_prefix]; [reflexivity|].
  destruct (layer_init c); [reflexivity|].
  cbn [List.length firstn]. rewrite <- IH. reflexivity.
Qed.

Lemma accepted_all `{Backend} (l : list LayerConfig) :
  Forall (fun cfg => layer_init cfg = None) l ->
  first_rejected l = None /\ accepted_prefix l = l.
Proof.
  induction 1 as [|c l Hc _ [IH1 IH2]]; cbn [first_rejected accepted_prefix];
    [split; reflexivity|].
  rewrite Hc, IH1, IH2. split; reflexivity.
Qed.

(** When [int(filters * alpha)] raises, the builder raises that error
    having drawn at most its own uid. *)
Lemma InvertedResBlock_width_raises `{Backend} (c : BlockConfig)
    (name : option string) (st : Registry) (e : exn) :
  width c = Raise e ->
  InvertedResBlock c name st
  = (Raise e, {| uids := named name (uids st); allocated := allocated st |}).
Proof.
  intros Hw. unfold InvertedResBlock.
  unfold bindM at 1. rewrite default_name_run. cbv beta iota.
  unfold bindM at 1. unfold lift at 1. rewrite Hw. reflexivity.
Qed.

(** On a backend that rejects a function as [filters] the list of a
    block's layers always holds a rejected one: [project], at the
    latest. *)
Lemma project_is_rejected `{B : Backend} (c : BlockConfig) (pf : DepthFrame) :
  rejects_function_filters B ->
  exists msg, first_rejected (block_layers c pf) = Some msg
              /\ accepted_prefix (block_layers c pf)
                 = accepted_prefix (layers_before_project c)
              /\ (first_rejected (layers_before_project c) = None ->
                  layer_init (project_config c pf) = Some msg).
Proof.
  intros Hconv. rewrite block_layers_split.
  rewrite first_rejected_app, accepted_prefix_app.
  destruct (first_rejected (layers_before_project c)) as [msg|] eqn:Hfive.
  - exists msg. split; [reflexivity|]. split; [reflexivity|discriminate].
  - cbn [first_rejected accepted_prefix].
    destruct (layer_init (project_config c pf)) as [msg|] eqn:Hp.
    + exists msg. split; [reflexivity|].
      split; [|reflexivity].
      symmetry. rewrite app_nil_r. 
      clear -Hfive. induction (layers_before_project c) as [|x l IH];
        cbn [first_rejected accepted_prefix] in *; [reflexivity|].
      destruct (layer_init x); [discriminate|]. rewrite IH by assumption.
      reflexivity.
    + exfalso. unfold project_config in Hp. eapply Hconv. exact Hp.
Qed.

Ltac cases_stop dn :=
  intros [= <- <-];
  exists dn; cbn [fst snd allocated uids];
  unfold block_layers, block_prefix;
  cbn [first_rejected accepted_prefix];
  repeat match goal with
         | H : layer_init _ = _ |- _ => rewrite H; clear H
         end;
  rewrite <- ?app_assoc; cbn [app]; rewrite ?app_nil_r;
  (split; [reflexivity|]);
  (split; [first [reflexivity|eexists; repeat split; reflexivity]|]);
  reflexivity.

(** The whole of a call: its result, the layers it has constructed and
    the uid counters it leaves. *)
Lemma InvertedResBlock_cases `{Backend} (c : BlockConfig)
    (name : option string) (st : Registry) (r : result BlockFrame)
    (st' : Registry) :
  InvertedResBlock c name st = (r, st') ->
  match width c with
  | Raise e =>
      r = Raise e
      /\ st' = {| uids := named name (uids st); allocated := allocated st |}
  | Ok w =>
      exists dn,
        let pf := {| divisor := w; min_value := 8; depth_name := dn |} in
        allocated st' = allocated st ++ accepted_prefix (block_layers c pf)
        /\ match first_rejected (block_layers c pf) with
           | Some msg => r = Raise (BackendError msg)
           | None =>
               exists fr, r = Ok fr
                          /\ config fr = c /\ pointwise_filters fr = pf
                          /\ map layer_config (sublayers fr)
                             = block_layers c pf
           end
        /\ uids st'
           = match accepted_prefix (block_layers c pf) with
             | [] => bump "depth" (named name (uids st))
             | _ :: _ =>
                 bump "correct_pad" (bump "depth" (named name (uids st)))
             end
  end.
Proof.
  destruct (width c) as [w|e] eqn:Hw.
  2:{ rewrite (InvertedResBlock_width_raises c name st e Hw).
      intros [= <- <-]. split; reflexivity. }
  unfold InvertedResBlock.
  unfold bindM at 1. rewrite default_name_run. cbv beta iota.
  unfold bindM at 1. unfold lift at 1. rewrite Hw. cbv beta iota.
  unfold bindM at 1. rewrite Depth_run. cbv beta iota.
  cbn [uids allocated]. fold (named name (uids st)).
  match goal with
  | |- context [Build_DepthFrame w 8 ?d] => set (dn := d)
  end.
  builder_step; [cases_stop dn|].
  unfold bindM at 1. rewrite CorrectPad_run. cbv beta iota.
  cbn [uids allocated].
  builder_step; [cases_stop dn|].
  builder_step; [cases_stop dn|].
  builder_step; [cases_stop dn|].
  builder_step; [cases_stop dn|].
  builder_step; [cases_stop dn|].
  builder_step; [cases_stop dn|].
  builder_step; [cases_stop dn|].
  unfold ret. cases_stop dn.
Qed.

(** On a backend that rejects a function as [filters], no call of the
    builder returns. *)
Lemma InvertedResBlock_raises `{B : Backend} (c : BlockConfig)
    (name : option string) (st : Registry) :
  rejects_function_filters B ->
  exists e, fst (InvertedResBlock c name st) = Raise e.
Proof.
  intros Hconv.
  destruct (InvertedResBlock c name st) as [r st'] eqn:Hrun. cbn [fst].
  pose proof (InvertedResBlock_cases c name st r st' Hrun) as Hc.
  destruct (width c) as [w|e].
  - destruct Hc as (dn & _ & Hres & _). cbv zeta in Hres.
    destruct (project_is_rejected c
                {| divisor := w; min_value := 8; depth_name := dn |} Hconv)
      as (msg & Hrej & _).
    rewrite Hrej in Hres. eauto.
  - destruct Hc as [-> _]. eauto.
Qed.

Lemma SymBackend_rejects_function_filters :
  rejects_function_filters SymBackend.
Proof. intros f k p u a n. discriminate. Qed.

Section BlockClaims.

Context {B : Backend}.

(** *** CorrectPad *)

Lemma CorrectPad_apply_eq (fr : CorrectPadFrame) (x : Tensor) :
  CorrectPad_apply fr x
  = match int_shape x with
    | Some _ => Raise (UnboundLocalError "kernel_size")
    | None => Raise TypeError
    end.
Proof.
  unfold CorrectPad_apply, shape_of.
  destruct (int_shape x); reflexivity.
Qed.

(** *** The expansion branch *)

Lemma apply_expanding (fr : BlockFrame) (inputs : Tensor) (st : Registry) :
  block_id (config fr) <> 0 ->
  InvertedResBlock_apply fr inputs st
  = (match int_shape inputs with
     | None => Raise TypeError
     | Some sh =>
         match tuple_last sh with
         | Raise e => Raise e
         | Ok None => Raise TypeError
         | Ok (Some _) => Raise (UnboundLocalError "prefix")
         end
     end, st).
Proof.
  intros Hid. unfold InvertedResBlock_apply, shape_of.
  replace (block_id (config fr) =? 0) with false
    by (symmetry; apply Z.eqb_neq; assumption).
  destruct (int_shape inputs) as [sh|]; [|reflexivity].
  unfold bindM at 1. unfold lift at 1. cbv beta iota.
  unfold bindM at 1. unfold lift at 1.
  destruct (tuple_last sh) as [[n|]|e]; reflexivity.
Qed.

Lemma residual_never_eligible (fr : BlockFrame) (d : dim) :
  residual_eligible fr d = false.
Proof. unfold residual_eligible. destruct d; reflexivity. Qed.

(** With [stride == 2] no application returns either: the expansion
    branch raises as above, and the other branch calls [correct_pad], which
    raises. *)
Lemma apply_stride_2_raises (fr : BlockFrame) (inputs : Tensor)
    (st : Registry) (out : Tensor) :
  stride (config fr) = 2 ->
  fst (InvertedResBlock_apply fr inputs st) <> Ok out.
Proof.
  intros Hs.
  destruct (Z.eq_dec (block_id (config fr)) 0) as [Hid|Hid].
  - unfold InvertedResBlock_apply, shape_of. rewrite Hid, Hs.
    unfold bindM, lift, ret. cbn [negb Z.eqb].
    destruct (int_shape inputs) as [sh|] eqn:Hsh; [|discriminate].
    destruct (tuple_last sh) as [d|e]; [|discriminate].
    rewrite CorrectPad_apply_eq, Hsh. discriminate.
  - rewrite apply_expanding by assumption. cbn [fst].
    destruct (int_shape inputs) as [sh|]; [|discriminate].
    destruct (tuple_last sh) as [[n|]|e]; discriminate.
Qed.

End BlockClaims.

(** ** The claims on CorrectPad and on the block *)

(** C7: the Padding-Amount Function never returns.  [CorrectPad.apply]
    assigns [kernel_size] on line 98, which makes the name a local of
    [apply]; line 97 reads it before any assignment, so on every tensor of
    known rank the call raises [UnboundLocalError], for every kernel size,
    whether the spatial dimensions are known, even, odd or unknown. *)
Theorem CorrectPad_apply_never_returns `{Backend}
    (k : kernel) (name : option string) (st : Registry) (x : Tensor) :
  exists fr,
    fst (CorrectPad k name st) = Ok fr
    /\ kernel_size fr = k
    /\ (forall p, CorrectPad_apply fr x <> Ok p)
    /\ CorrectPad_apply fr x
       = match int_shape x with
         | Some _ => Raise (UnboundLocalError "kernel_size")
         | None => Raise TypeError
         end.
Proof.
  destruct (CorrectPad_ok k name st) as (s & st' & Hc & _).
  eexists. rewrite Hc. split; [reflexivity|]. split; [reflexivity|].
  rewrite CorrectPad_apply_eq. split; [|reflexivity].
  intros p. destruct (int_shape x); discriminate.
Qed.

(** C7 at its two inputs: kernel size 3 on a feature map of even, known
    size, and on one whose spatial dimensions are unknown. *)
Example CorrectPad_3_even_and_unknown :
  (exists fr, fst (CorrectPad (KInt 3) None empty_registry) = Ok fr
     /\ CorrectPad_apply fr (feature_map 16)
        = Raise (UnboundLocalError "kernel_size")
     /\ CorrectPad_apply fr (SInput [None; None; None; Some 16])
        = Raise (UnboundLocalError "kernel_size")).
Proof. eexists. repeat split. Qed.

(** C10: the [name] argument of [Depth] and of [CorrectPad], given or
    generated from the uid counter, never reaches the returned [apply]: for
    any two names and registries and the same other arguments, the two
    returned functions agree on every input. *)
Theorem apply_ignores_name `{Backend} (n1 n2 : option string)
    (st1 st2 : Registry) :
  (forall d m x, exists f1 f2,
      fst (Depth d m n1 st1) = Ok f1 /\ fst (Depth d m n2 st2) = Ok f2
      /\ Depth_apply f1 x = Depth_apply f2 x)
  /\ (forall k x, exists f1 f2,
         fst (CorrectPad k n1 st1) = Ok f1 /\ fst (CorrectPad k n2 st2) = Ok f2
         /\ CorrectPad_apply f1 x = CorrectPad_apply f2 x).
Proof.
  split.
  - intros d m x.
    destruct (Depth_ok d m n1 st1) as (s1 & st1' & H1 & _).
    destruct (Depth_ok d m n2 st2) as (s2 & st2' & H2 & _).
    do 2 eexists. rewrite H1, H2.
    split; [reflexivity|]. split; [reflexivity|]. apply Depth_apply_name.
  - intros k x.
    destruct (CorrectPad_ok k n1 st1) as (s1 & st1' & H1 & _).
    destruct (CorrectPad_ok k n2 st2) as (s2 & st2' & H2 & _).
    do 2 eexists. rewrite H1, H2.
    split; [reflexivity|]. split; [reflexivity|].
    rewrite !CorrectPad_apply_eq. reflexivity.
Qed.

(** C1: no inverted residual block is ever built, so there is no output,
    with or without a residual.  Line 151 binds [pointwise_filters] to the
    function that [Depth(pointwise_conv_filters, 8)] returns, and line 176
    passes it to [Conv2D] as [filters]; Keras rejects it, so every call of
    [InvertedResBlock] raises before [apply] is defined.  The same binding
    makes the eligibility test of line 225 compare a channel count with a
    function: it is false for every frame and every channel count. *)
Theorem block_is_never_built `{B : Backend} (c : BlockConfig)
    (name : option string) (st : Registry)
    (Hconv : rejects_function_filters B) :
  (exists e, fst (InvertedResBlock c name st) = Raise e)
  /\ (forall (fr : BlockFrame) (d : dim), residual_eligible fr d = false).
Proof.
  split.
  - apply InvertedResBlock_raises. exact Hconv.
  - apply residual_never_eligible.
Qed.

Lemma block_is_never_built_witness :
  rejects_function_filters SymBackend
  /\ exists e, fst (InvertedResBlock stem_config None empty_registry)
               = Raise e.
Proof.
  split; [intros f k p u a n; discriminate|].
  apply (block_is_never_built stem_config None empty_registry).
  intros f k p u a n. discriminate.
Defined.

(** C2: the projection convolution is never constructed.  Its constructor
    is called, when the five layers before it have been accepted, with
    kernel size 1, no bias, no activation and the name [prefix + "project"]
    as the claim says, but with [filters] the function returned by
    [Depth(int(filters * alpha), 8)] (divisor [int(filters * alpha)],
    [min_value] 8), not a channel count.  The backend rejects that call
    and the builder raises its error; the registry then holds the five
    earlier layers and neither [project] nor [project_BN]. *)
Theorem project_conv_is_handed_a_function `{B : Backend} (c : BlockConfig)
    (name : option string) (st : Registry) (w : Z)
    (Hconv : rejects_function_filters B)
    (Hw : width c = Ok w)
    (Hfive : Forall (fun cfg => layer_init cfg = None)
               (layers_before_project c)) :
  exists dn msg,
    layer_init
      (Conv2D (VFunc (DepthApply {| divisor := w; min_value := 8;
                                    depth_name := dn |}))
         1 "same" false None (block_prefix c +:+ "project"))
    = Some msg
    /\ fst (InvertedResBlock c name st) = Raise (BackendError msg)
    /\ allocated (snd (InvertedResBlock c name st))
       = allocated st ++ layers_before_project c
    /\ filter is_Conv2D (layers_before_project c) = [].
Proof.
  destruct (InvertedResBlock c name st) as [r st'] eqn:Hrun. cbn [fst snd].
  pose proof (InvertedResBlock_cases c name st r st' Hrun) as Hc.
  rewrite Hw in Hc. destruct Hc as (dn & Hal & Hres & _). cbv zeta in *.
  set (pf := {| divisor := w; min_value := 8; depth_name := dn |}) in *.
  destruct (project_is_rejected c pf Hconv) as (msg & Hrej & Hacc & Hp).
  destruct (accepted_all _ Hfive) as [Hnone Hall].
  rewrite Hrej in Hres. rewrite Hacc, Hall in Hal.
  exists dn, msg. split; [apply Hp; exact Hnone|].
  split; [exact Hres|]. split; [exact Hal|reflexivity].
Qed.

Lemma project_conv_is_handed_a_function_witness :
  (rejects_function_filters SymBackend
   /\ width stem_config = Ok 16
   /\ Forall (fun cfg => layer_init cfg = None)
        (layers_before_project stem_config))
  /\ exists dn msg,
       layer_init
         (Conv2D (VFunc (DepthApply {| divisor := 16; min_value := 8;
                                       depth_name := dn |}))
            1 "same" false None (block_prefix stem_config +:+ "project"))
       = Some msg
       /\ fst (InvertedResBlock stem_config None empty_registry)
          = Raise (BackendError msg)
       /\ allocated (snd (InvertedResBlock stem_config None empty_registry))
          = allocated empty_registry ++ layers_before_project stem_config
       /\ filter is_Conv2D (layers_before_project stem_config) = [].
Proof.
  split.
  - split; [intros f k p u a n; discriminate|].
    split; [vm_compute; reflexivity|].
    repeat constructor.
  - apply (project_conv_is_handed_a_function stem_config None empty_registry
             16).
    + intros f k p u a n. discriminate.
    + vm_compute. reflexivity.
    + repeat constructor.
Defined.

(** What the symbolic backend gives for
    [InvertedResBlock(expansion=1, stride=1, alpha=1.0, filters=16,
    block_id=0)]: the error of the [project] constructor, after five
    layers. *)
Example stem_block_on_the_symbolic_backend :
  fst (InvertedResBlock stem_config None empty_registry)
  = Raise (BackendError
             "TypeError: '<=' not supported between instances of 'function' and 'int'")
  /\ map layer_name
       (allocated (snd (InvertedResBlock stem_config None empty_registry)))
     = ["block_0_expand_BN"; "block_0_expand_relu"; "block_0_depthwise";
        "block_0_depthwise_BN"; "block_0_depthwise_relu"].
Proof. vm_compute. split; reflexivity. Qed.

(** C3: the expansion step is never performed.  For [block_id != 0], as
    for every block, the call of [InvertedResBlock] raises at the [project]
    constructor and returns no transformation to apply.  The body of
    [apply] could not perform the step either: line 210 assigns [prefix]
    inside [apply], so [prefix] is a local of [apply], and the expansion
    branch reads it on line 205 before any assignment; on every frame with
    [block_id != 0] it raises, [UnboundLocalError] when the input's channel
    count is known, without having called a layer. *)
Theorem expansion_step_never_runs `{B : Backend} (c : BlockConfig)
    (name : option string) (st : Registry)
    (Hconv : rejects_function_filters B) (Hid : block_id c <> 0) :
  (exists e, fst (InvertedResBlock c name st) = Raise e)
  /\ (forall (fr : BlockFrame) (inputs : Tensor) (st2 : Registry),
         config fr = c ->
         (forall out, fst (InvertedResBlock_apply fr inputs st2) <> Ok out)
         /\ (forall sh n, int_shape inputs = Some sh ->
                          tuple_last sh = Ok (Some n) ->
                          InvertedResBlock_apply fr inputs st2
                          = (Raise (UnboundLocalError "prefix"), st2))).
Proof.
  split; [apply InvertedResBlock_raises; exact Hconv|].
  intros fr inputs st2 Hc.
  rewrite apply_expanding by (rewrite Hc; assumption). cbn [fst].
  split.
  - intros out. destruct (int_shape inputs) as [sh|]; [|discriminate].
    destruct (tuple_last sh) as [[n|]|e]; discriminate.
  - intros sh n -> ->. reflexivity.
Qed.

Lemma expansion_step_never_runs_witness :
  (rejects_function_filters SymBackend /\ block_id expanding_config <> 0)
  /\ fst (InvertedResBlock expanding_config None empty_registry)
     = Raise (BackendError
                "TypeError: '<=' not supported between instances of 'function' and 'int'")
  /\ exists e, fst (InvertedResBlock expanding_config None empty_registry)
               = Raise e.
Proof.
  split; [split; [intros f k p u a n; discriminate|discriminate]|].
  split; [vm_compute; reflexivity|].
  apply (expansion_step_never_runs expanding_config None empty_registry).
  - intros f k p u a n. discriminate.
  - discriminate.
Defined.

(** The body of [apply] on a frame with [block_id == 0] and a stride
    other than 2: it skips the expansion step and calls the depthwise layer
    on the input itself, then [depthwise_BN], [depthwise_relu], [project]
    and [project_BN]. *)
Lemma apply_stem `{Backend} (fr : BlockFrame) (inputs : Tensor)
    (st : Registry) (sh : list dim) (d : dim) :
  block_id (config fr) = 0 -> stride (config fr) <> 2 ->
  int_shape inputs = Some sh -> tuple_last sh = Ok d ->
  fst (InvertedResBlock_apply fr inputs st)
  = (do x <- layer_call (depthwise_conv2d_1 fr) [inputs];
     do x <- layer_call (batch_norm_2 fr) [x];
     do x <- layer_call (activation_2 fr) [x];
     do x <- layer_call (conv2d_1 fr) [x];
     layer_call (batch_norm_3 fr) [x]).
Proof.
  intros Hid Hs Hsh Hl. unfold InvertedResBlock_apply, shape_of.
  rewrite Hsh, Hid.
  replace (stride (config fr) =? 2) with false
    by (symmetry; apply Z.eqb_neq; assumption).
  unfold call, bindM, lift, ret. rewrite Hl. cbn [negb Z.eqb].
  rewrite residual_never_eligible.
  destruct (layer_call (depthwise_conv2d_1 fr) [inputs]) as [x1|];
    [|reflexivity]. cbn [bind].
  destruct (layer_call (batch_norm_2 fr) [x1]) as [x2|]; [|reflexivity].
  cbn [bind].
  destruct (layer_call (activation_2 fr) [x2]) as [x3|]; [|reflexivity].
  cbn [bind].
  destruct (layer_call (conv2d_1 fr) [x3]) as [x4|]; [|reflexivity].
  cbn [bind].
  destruct (layer_call (batch_norm_3 fr) [x4]); reflexivity.
Qed.




(** The block that is invalid in every respect is accepted like any
    other up to its [project] layer. *)
Example invalid_block_on_the_symbolic_backend :
  width invalid_config = Ok 2
  /\ fst (InvertedResBlock invalid_config None empty_registry)
     = Raise (BackendError
                "TypeError: '<=' not supported between instances of 'function' and 'int'")
  /\ List.length
       (allocated (snd (InvertedResBlock invalid_config None empty_registry)))
     = 5%nat.
Proof. vm_compute. repeat split. Qed.

Lemma accepted_prefix_split `{Backend} (l : list LayerConfig) :
  exists rest, l = accepted_prefix l ++ rest.
Proof.
  exists (skipn (List.length (accepted_prefix l)) l).
  rewrite (accepted_prefix_firstn l) at 1. symmetry. apply firstn_skipn.
Qed.

(** C9: a call of the builder allocates at most the five layers that come
    before [project], in order, and raises; [project], [project_BN] and
    [add] are never allocated, and no convolution ever is.  When the
    backend accepts the five, they are what the registry has gained.  The
    body of [apply] does not allocate the expansion convolution either: on
    a frame with [block_id != 0] it raises while evaluating the
    constructor's [name] argument and leaves the registry as it found
    it. *)
Theorem project_and_add_never_allocated `{B : Backend} (c : BlockConfig)
    (name : option string) (st : Registry)
    (Hconv : rejects_function_filters B) :
  (exists l rest,
      allocated (snd (InvertedResBlock c name st)) = allocated st ++ l
      /\ layers_before_project c = l ++ rest
      /\ filter is_Conv2D l = []
      /\ (forall w, width c = Ok w ->
                    Forall (fun cfg => layer_init cfg = None)
                      (layers_before_project c) ->
                    rest = []))
  /\ (exists e, fst (InvertedResBlock c name st) = Raise e)
  /\ (forall (fr : BlockFrame) (inputs : Tensor) (st2 : Registry),
         block_id (config fr) <> 0 ->
         snd (InvertedResBlock_apply fr inputs st2) = st2).
Proof.
  split; [|split].
  - destruct (InvertedResBlock c name st) as [r st'] eqn:Hrun. cbn [snd].
    pose proof (InvertedResBlock_cases c name st r st' Hrun) as Hc.
    destruct (width c) as [w|e].
    + destruct Hc as (dn & Hal & _). cbv zeta in Hal.
      destruct (project_is_rejected c
                  {| divisor := w; min_value := 8; depth_name := dn |} Hconv)
        as (msg & _ & Hacc & _).
      rewrite Hacc in Hal.
      destruct (accepted_prefix_split (layers_before_project c))
        as [rest Hrest].
      exists (accepted_prefix (layers_before_project c)), rest.
      split; [exact Hal|]. split; [exact Hrest|]. split.
      * assert (Hf : filter is_Conv2D (layers_before_project c) = [])
          by reflexivity.
        rewrite Hrest, filter_app in Hf.
        apply app_eq_nil in Hf. apply Hf.
      * intros w' _ Hfive. destruct (accepted_all _ Hfive) as [_ Hall].
        rewrite Hall in Hrest.
        rewrite <- (app_nil_r (layers_before_project c)) in Hrest at 1.
        apply app_inv_head in Hrest. symmetry. exact Hrest.
    + destruct Hc as [_ ->]. cbn [allocated].
      exists [], (layers_before_project c).
      split; [symmetry; apply app_nil_r|]. split; [reflexivity|].
      split; [reflexivity|]. intros w' Hw'. discriminate Hw'.
  - apply InvertedResBlock_raises. exact Hconv.
  - intros fr inputs st2 Hid. rewrite apply_expanding by assumption.
    reflexivity.
Qed.

Lemma project_and_add_never_allocated_witness :
  rejects_function_filters SymBackend
  /\ map layer_name
       (allocated (snd (InvertedResBlock expanding_config None
                          empty_registry)))
     = ["block_1_expand_BN"; "block_1_expand_relu"; "block_1_depthwise";
        "block_1_depthwise_BN"; "block_1_depthwise_relu"]
  /\ exists l rest,
       allocated (snd (InvertedResBlock expanding_config None empty_registry))
       = allocated empty_registry ++ l
       /\ layers_before_project expanding_config = l ++ rest
       /\ filter is_Conv2D l = []
       /\ (forall w, width expanding_config = Ok w ->
                     Forall (fun cfg => layer_init cfg = None)
                       (layers_before_project expanding_config) ->
                     rest = []).
Proof.
  split; [intros f k p u a n; discriminate|].
  split; [vm_compute; reflexivity|].
  apply (project_and_add_never_allocated expanding_config None
           empty_registry).
  intros f k p u a n. discriminate.
Defined.

(** ** Further properties of [Depth] *)

(** X1: whatever the target, int or float, a value returned by
    [Depth.apply] with a non-negative [divisor] is at least [min_value],
    and it is divisible by [divisor] whenever [min_value] is. *)
Theorem Depth_apply_floor_and_divisibility (fr : DepthFrame) (x : num)
    (r : Z) (Hd : 0 <= divisor fr) (Hr : Depth_apply fr x = Ok r) :
  min_value fr <= r
  /\ ((divisor fr | min_value fr) -> (divisor fr | r)).
Proof.
  unfold Depth_apply, Depth_candidate in Hr.
  destruct (int_truediv (divisor fr) 2) as [half|]; [|discriminate].
  cbn [bind] in Hr.
  destruct (add_float x half) as [s|]; [|discriminate]. cbn [bind] in Hr.
  destruct (int_of_float s) as [i|]; [|discriminate]. cbn [bind] in Hr.
  unfold int_floordiv in Hr.
  destruct (Z.eqb_spec (divisor fr) 0) as [|Hd0]; [discriminate|].
  cbn [bind] in Hr.
  destruct (float_mul lit_0_9 x) as [b|]; [|discriminate]. cbn [bind] in Hr.
  set (k := i / divisor fr * divisor fr) in *.
  assert (Hk : (divisor fr | k)) by (exists (i / divisor fr); reflexivity).
  assert (Hmax : (divisor fr | min_value fr) ->
                 (divisor fr | Z.max (min_value fr) k)).
  { intros Hm. destruct (Z.max_spec (min_value fr) k) as [[_ ->]|[_ ->]];
      assumption. }
  destruct (int_lt_float (Z.max (min_value fr) k) b); injection Hr as <-.
  - split; [lia|]. intros Hm. apply Z.divide_add_r; [auto|apply Z.divide_refl].
  - split; [lia|]. exact Hmax.
Qed.

Lemma Depth_apply_floor_and_divisibility_witness :
  (0 <= 8
   /\ Depth_apply {| divisor := 8; min_value := 8; depth_name := "" |}
        (Float (S754_finite false 6305039478318694 (-49))) = Ok 16)
  /\ 8 <= 16 /\ ((8 | 8) -> (8 | 16)).
Proof.
  split; [split; [lia|vm_compute; reflexivity]|].
  apply (Depth_apply_floor_and_divisibility
           {| divisor := 8; min_value := 8; depth_name := "" |}
           (Float (S754_finite false 6305039478318694 (-49))) 16).
  - cbn [divisor]. lia.
  - vm_compute. reflexivity.
Defined.

(** X2: for int targets the result is never more than 10% below the
    target, for every divisor, and never above the larger of [min_value]
    and [target + divisor]. *)
Theorem round_channels_sandwich (fr : DepthFrame) (n : Z)
    (Hn : 0 <= n < 2 ^ 48) (Hd : 0 < divisor fr < 2 ^ 48) :
  exists r, Depth_apply fr (Int n) = Ok r
            /\ 9 * n <= 10 * r
            /\ r <= Z.max (min_value fr) (n + divisor fr).
Proof.
  destruct (rule_on_ints fr n Hn Hd) as [-> Hk]. cbv zeta in *.
  set (k := (2 * n + divisor fr) / (2 * divisor fr) * divisor fr) in *.
  eexists. split; [reflexivity|].
  destruct (Z.ltb_spec (10 * Z.max (min_value fr) k) (9 * n)); lia.
Qed.

Lemma round_channels_sandwich_witness :
  (0 <= 100 < 2 ^ 48 /\ 0 < 7 < 2 ^ 48)
  /\ exists r, Depth_apply {| divisor := 7; min_value := 3; depth_name := "" |}
                 (Int 100) = Ok r
               /\ 9 * 100 <= 10 * r /\ r <= Z.max 3 (100 + 7).
Proof.
  split; [lia|].
  apply (round_channels_sandwich
           {| divisor := 7; min_value := 3; depth_name := "" |} 100);
    cbn [divisor]; lia.
Defined.

(** X3: for a divisor [0 < d < 2^48] and a [min_value] that is a multiple
    of [d], the result is monotone in an int target: [0 <= n1 <= n2 < 2^48]
    gives [result(n1) <= result(n2)]. *)
Theorem round_channels_monotone (fr : DepthFrame) (n1 n2 : Z)
    (Hn : 0 <= n1 <= n2) (Hn2 : n2 < 2 ^ 48)
    (Hd : 0 < divisor fr < 2 ^ 48)
    (Hm : (divisor fr | min_value fr)) :
  exists r1 r2, Depth_apply fr (Int n1) = Ok r1
                /\ Depth_apply fr (Int n2) = Ok r2
                /\ r1 <= r2.
Proof.
  destruct (rule_on_ints fr n1 ltac:(lia) Hd) as [-> _].
  destruct (rule_on_ints fr n2 ltac:(lia) Hd) as [-> _]. cbv zeta.
  set (d := divisor fr) in *.
  set (q1 := (2 * n1 + d) / (2 * d)). set (q2 := (2 * n2 + d) / (2 * d)).
  assert (Hq : q1 <= q2) by (apply Z.div_le_mono; lia).
  destruct Hm as [m' Hm']. rewrite Hm'.
  assert (Hc : forall q, Z.max (m' * d) (q * d) = Z.max m' q * d)
    by (intros q; destruct (Z.max_spec m' q) as [[? ->]|[? ->]]; nia).
  rewrite !Hc.
  set (a1 := Z.max m' q1). set (a2 := Z.max m' q2).
  assert (Ha : a1 <= a2) by (unfold a1, a2; lia).
  do 2 eexists. split; [reflexivity|]. split; [reflexivity|].
  assert (Hle : a1 * d <= a2 * d) by (apply Z.mul_le_mono_nonneg_r; lia).
  destruct (Z.eq_dec a1 a2) as [Heq|Hne].
  - rewrite Heq in *.
    destruct (Z.ltb_spec (10 * (a2 * d)) (9 * n1));
      destruct (Z.ltb_spec (10 * (a2 * d)) (9 * n2)); lia.
  - assert (Hstep : (a1 + 1) * d <= a2 * d)
      by (apply Z.mul_le_mono_nonneg_r; lia).
    destruct (Z.ltb_spec (10 * (a1 * d)) (9 * n1));
      destruct (Z.ltb_spec (10 * (a2 * d)) (9 * n2)); lia.
Qed.

Lemma round_channels_monotone_witness :
  (0 <= 35 <= 36 /\ 36 < 2 ^ 48 /\ 0 < 8 < 2 ^ 48 /\ (8 | 8))
  /\ exists r1 r2,
       Depth_apply {| divisor := 8; min_value := 8; depth_name := "" |}
         (Int 35) = Ok r1
       /\ Depth_apply {| divisor := 8; min_value := 8; depth_name := "" |}
            (Int 36) = Ok r2
       /\ r1 <= r2.
Proof.
  split; [split; [lia|]; split; [lia|]; split; [lia|exists 1; reflexivity]|].
  apply (round_channels_monotone
           {| divisor := 8; min_value := 8; depth_name := "" |} 35 36);
    cbn [divisor min_value]; try lia.
  exists 1. reflexivity.
Defined.

(** Without the hypothesis on [min_value] the result is not monotone:
    with [min_value = 9], target 11 gives 17 and target 12 gives 16.  Nor
    is it with a negative divisor: [Depth(-8)(8)] is 8 and [Depth(-8)(10)]
    is 0. *)
Example round_channels_not_monotone :
  Depth_apply {| divisor := 8; min_value := 9; depth_name := "" |} (Int 11)
  = Ok 17
  /\ Depth_apply {| divisor := 8; min_value := 9; depth_name := "" |} (Int 12)
     = Ok 16
  /\ Depth_apply {| divisor := -8; min_value := -8; depth_name := "" |}
       (Int 8) = Ok 8
  /\ Depth_apply {| divisor := -8; min_value := -8; depth_name := "" |}
       (Int 10) = Ok 0.
Proof. vm_compute. repeat split. Qed.

(** X4: rounding is idempotent.  For a divisor [d > 0], a [min_value]
    that is a multiple of [d] with [0 <= min_value < 2^48], and an int
    target [n >= 0] with [n + d < 2^48], rounding the result for [n] again
    returns it unchanged. *)
Theorem round_channels_idempotent (fr : DepthFrame) (n r : Z)
    (Hn : 0 <= n) (Hbound : n + divisor fr < 2 ^ 48)
    (Hd : 0 < divisor fr)
    (Hm : (divisor fr | min_value fr))
    (Hm0 : 0 <= min_value fr < 2 ^ 48)
    (Hr : Depth_apply fr (Int n) = Ok r) :
  Depth_apply fr (Int r) = Ok r.
Proof.
  destruct (rule_on_ints fr n ltac:(lia) ltac:(lia)) as [Hrule Hk].
  cbv zeta in Hrule, Hk. rewrite Hrule in Hr. clear Hrule.
  set (d := divisor fr) in *.
  set (k := (2 * n + d) / (2 * d) * d) in *.
  assert (Hdk : (d | Z.max (min_value fr) k)).
  { destruct (Z.max_spec (min_value fr) k) as [[_ ->]|[_ ->]];
      [exists ((2 * n + d) / (2 * d)); reflexivity|exact Hm]. }
  assert (Hdr : (d | r) /\ min_value fr <= r <= Z.max (min_value fr) (n + d)).
  { destruct (Z.ltb_spec (10 * Z.max (min_value fr) k) (9 * n));
      injection Hr as <-; (split; [|lia]);
      [apply Z.divide_add_r; [exact Hdk|apply Z.divide_refl]|exact Hdk]. }
  destruct Hdr as [[a Ha] Hrange].
  destruct (rule_on_ints fr r ltac:(lia) ltac:(lia)) as [-> _]. cbv zeta.
  fold d.
  assert (Hq : (2 * r + d) / (2 * d) = a).
  { symmetry. apply Z.div_unique with d; [left; lia|]. rewrite Ha. lia. }
  rewrite Hq, <- Ha.
  replace (Z.max (min_value fr) r) with r by lia.
  replace (10 * r <? 9 * r) with false by (symmetry; apply Z.ltb_ge; lia).
  reflexivity.
Qed.

Lemma round_channels_idempotent_witness :
  (0 <= 10 /\ 10 + 8 < 2 ^ 48 /\ 0 < 8 /\ (8 | 8) /\ 0 <= 8 < 2 ^ 48
   /\ Depth_apply {| divisor := 8; min_value := 8; depth_name := "" |}
        (Int 10) = Ok 16)
  /\ Depth_apply {| divisor := 8; min_value := 8; depth_name := "" |}
       (Int 16) = Ok 16.
Proof.
  split.
  - split; [lia|]. split; [lia|]. split; [lia|].
    split; [exists 1; reflexivity|]. split; [lia|].
    vm_compute. reflexivity.
  - apply (round_channels_idempotent
             {| divisor := 8; min_value := 8; depth_name := "" |} 10 16);
      cbn [divisor min_value]; try lia.
    + exists 1. reflexivity.
    + vm_compute. reflexivity.
Defined.

(** X5: a zero [divisor] is not rejected when [Depth] is called; the
    returned [apply] raises [ZeroDivisionError] on every target that is a
    finite double or converts to one. *)
Theorem Depth_zero_divisor_raises (m : option Z) (name : option string)
    (st : Registry) (x : num) (f : float)
    (Hx : to_float x = Ok f) (Hf : is_finite f = true) :
  exists fr, fst (Depth 0 m name st) = Ok fr
             /\ Depth_apply fr x = Raise ZeroDivisionError.
Proof.
  destruct (Depth_ok 0 m name st) as (s & st' & -> & _).
  eexists. split; [reflexivity|].
  unfold Depth_apply, Depth_candidate. cbn [divisor].
  change (int_truediv 0 2) with (Ok (S754_zero false)). cbn [bind].
  unfold add_float. rewrite Hx. cbn [bind].
  destruct f as [s0| | |s0 m0 e0]; try discriminate.
  - destruct s0; reflexivity.
  - reflexivity.
Qed.

Lemma Depth_zero_divisor_raises_witness :
  (to_float (Int 100) = Ok (S754_finite false 7036874417766400 (-46))
   /\ is_finite (S754_finite false 7036874417766400 (-46)) = true)
  /\ exists fr, fst (Depth 0 None None empty_registry) = Ok fr
                /\ Depth_apply fr (Int 100) = Raise ZeroDivisionError.
Proof.
  split; [split; vm_compute; reflexivity|].
  apply (Depth_zero_divisor_raises None None empty_registry (Int 100)
           (S754_finite false 7036874417766400 (-46)));
    vm_compute; reflexivity.
Defined.

(** X6: on a target that is not a finite double [apply] raises what
    [int] raises: [ValueError] on a NaN, [OverflowError] on an infinity. *)
Theorem Depth_apply_non_finite (fr : DepthFrame) (s : bool)
    (Hd : 0 < divisor fr < 2 ^ 53) :
  Depth_apply fr (Float S754_nan) = Raise ValueError
  /\ Depth_apply fr (Float (S754_infinity s)) = Raise OverflowError.
Proof.
  unfold Depth_apply, Depth_candidate.
  rewrite int_truediv_2_exact by assumption. cbn [bind].
  split; reflexivity.
Qed.

Lemma Depth_apply_non_finite_witness :
  0 < 8 < 2 ^ 53
  /\ Depth_apply {| divisor := 8; min_value := 8; depth_name := "" |}
       (Float S754_nan) = Raise ValueError.
Proof.
  split; [lia|].
  apply (Depth_apply_non_finite
           {| divisor := 8; min_value := 8; depth_name := "" |} false).
  cbn [divisor]. lia.
Defined.

(** ** Further properties of the registry and of the builders *)

(** X7: names generated from the uid counter are fresh.  Two successive
    calls of [Depth] without a name return closures named [depth_<k+1>] and
    [depth_<k+2>], which differ, and leave the counter at [k + 2]; a call
    with a name leaves the registry as it is. *)
Theorem auto_names_are_fresh (d1 d2 : Z) (m1 m2 : option Z) (n : string)
    (st : Registry) :
  exists f1 st1 f2 st2,
    Depth d1 m1 None st = (Ok f1, st1)
    /\ Depth d2 m2 None st1 = (Ok f2, st2)
    /\ depth_name f1 <> depth_name f2
    /\ uids st2 !! "depth"
       = Some (S (S (default 0%nat (uids st !! "depth"))))
    /\ snd (Depth d1 m1 (Some n) st) = st.
Proof.
  do 4 eexists. rewrite !Depth_run.
  split; [reflexivity|]. split; [reflexivity|].
  cbn [uids allocated depth_name snd].
  unfold bump. rewrite !lookup_insert_eq. cbn [default].
  split; [|split; [reflexivity|destruct st; reflexivity]].
  intros Heq. apply (inj (String.app "depth_")) in Heq.
  apply (inj pretty) in Heq. unfold id in Heq. lia.
Qed.

(** X8: the uid counters after a call of the builder, returning or
    raising.  The [inverted_res_block] counter is one higher exactly when
    no name was given; the [depth] counter is one higher once
    [int(filters * alpha)] has been computed; the [correct_pad] counter is
    one higher once the backend has accepted the first layer, [expand_BN];
    no other counter changes.  A call that fails further on has consumed
    its uids all the same. *)
Theorem builder_consumes_uids `{Backend} (c : BlockConfig)
    (name : option string) (st : Registry) :
  uids (snd (InvertedResBlock c name st))
  = match width c with
    | Raise _ => named name (uids st)
    | Ok _ =>
        match layer_init (BatchNormalization (-1) lit_1e_3 lit_0_999
                            (block_prefix c +:+ "expand_BN")) with
        | Some _ => bump "depth" (named name (uids st))
        | None => bump "correct_pad" (bump "depth" (named name (uids st)))
        end
    end.
Proof.
  destruct (InvertedResBlock c name st) as [r st'] eqn:Hrun. cbn [snd].
  pose proof (InvertedResBlock_cases c name st r st' Hrun) as Hc.
  destruct (width c) as [w|e].
  - destruct Hc as (dn & _ & _ & Hu). cbv zeta in Hu. rewrite Hu.
    unfold block_layers. cbn [accepted_prefix].
    destruct (layer_init _); reflexivity.
  - destruct Hc as [_ ->]. reflexivity.
Qed.

(** X9: the builder draws its uid before it does anything that can fail:
    called without a name it advances the [inverted_res_block] counter by
    one whether it returns or raises. *)
Theorem failed_builder_consumes_uid `{Backend} (c : BlockConfig)
    (st : Registry) :
  uids (snd (InvertedResBlock c None st)) !! "inverted_res_block"
  = Some (S (default 0%nat (uids st !! "inverted_res_block"))).
Proof.
  destruct (InvertedResBlock c None st) as [r st'] eqn:Hrun. cbn [snd].
  pose proof (InvertedResBlock_cases c None st r st' Hrun) as Hc.
  destruct (width c) as [w|e].
  - destruct Hc as (dn & _ & _ & Hu). cbv zeta in Hu. rewrite Hu.
    destruct (accepted_prefix _); unfold named, bump;
      rewrite ?lookup_insert_ne by discriminate;
      apply lookup_insert_eq.
  - destruct Hc as [_ ->]. cbn [uids]. apply lookup_insert_eq.
Qed.

Lemma constructed_app (st st' : Registry) (l : list LayerConfig) :
  allocated st' = allocated st ++ l -> constructed st st' = l.
Proof.
  intros Hal. unfold constructed. rewrite Hal.
  rewrite skipn_app, skipn_all, Nat.sub_diag. reflexivity.
Qed.

(** X10: the builder constructs its layers in source order and stops at
    the first one the backend rejects.  After a call, returning or raising,
    the registry has gained exactly the layers that come before the first
    rejected one, in construction order; when [int(filters * alpha)]
    raises it has gained none. *)
Theorem builder_stops_at_first_rejection `{Backend} (c : BlockConfig)
    (name : option string) (st : Registry) :
  exists l,
    allocated (snd (InvertedResBlock c name st)) = allocated st ++ l
    /\ match width c with
       | Raise _ => l = []
       | Ok w =>
           exists pf, divisor pf = w /\ min_value pf = 8
                      /\ l = accepted_prefix (block_layers c pf)
       end.
Proof.
  destruct (InvertedResBlock c name st) as [r st'] eqn:Hrun. cbn [snd].
  pose proof (InvertedResBlock_cases c name st r st' Hrun) as Hc.
  destruct (width c) as [w|e].
  - destruct Hc as (dn & Hal & _). cbv zeta in Hal.
    eexists. split; [exact Hal|].
    exists {| divisor := w; min_value := 8; depth_name := dn |}.
    repeat split.
  - destruct Hc as [_ ->]. exists []. cbn [allocated].
    split; [symmetry; apply app_nil_r|reflexivity].
Qed.

(** ** Layer names *)

Lemma pretty_N_go_free (x : N) (s : string) :
  free_of "_"%char s -> free_of "_"%char (pretty_N_go x s).
Proof.
  revert s. induction (N.lt_wf_0 x) as [x _ IH]; intros s Hs.
  assert (x = 0 \/ 0 < x)%N as [->|Hx] by lia.
  - rewrite pretty_N_go_0. exact Hs.
  - rewrite pretty_N_go_step by exact Hx. apply IH.
    + apply N.div_lt; [exact Hx|reflexivity].
    + split; [|exact Hs].
      unfold pretty_N_char. repeat case_match; discriminate.
Qed.

Lemma pretty_Z_free (z : Z) : free_of "_"%char (pretty z).
Proof.
  assert (Hpos : forall p : positive, free_of "_"%char (pretty p)).
  { intros p. unfold pretty, pretty_positive, pretty, pretty_N.
    case_decide; [discriminate|]. apply pretty_N_go_free. exact I. }
  destruct z as [|p|p]; unfold pretty, pretty_Z.
  - split; [discriminate|exact I].
  - apply Hpos.
  - split; [discriminate|apply Hpos].
Qed.

Lemma append_cons (a : ascii) (p s : string) :
  String a p +:+ s = String a (p +:+ s).
Proof. reflexivity. Qed.

Lemma append_nil (s : string) : "" +:+ s = s.
Proof. reflexivity. Qed.

Lemma first_separator (p q u v : string) :
  free_of "_"%char p -> free_of "_"%char q ->
  p +:+ String "_"%char u = q +:+ String "_"%char v -> p = q.
Proof.
  revert q. induction p as [|a p IH]; intros [|b q] Hp Hq Heq;
    rewrite ?append_cons, ?append_nil in Heq.
  - reflexivity.
  - injection Heq as <- _. destruct Hq as [Hq _]. congruence.
  - injection Heq as -> _. destruct Hp as [Hp _]. congruence.
  - injection Heq as -> Heq. f_equal.
    apply IH; [apply Hp|apply Hq|exact Heq].
Qed.

Lemma append_separator (p s : string) :
  (p +:+ "_") +:+ s = p +:+ String "_"%char s.
Proof.
  induction p as [|a p IH]; rewrite ?append_cons, ?append_nil.
  - reflexivity.
  - rewrite IH. reflexivity.
Qed.

Lemma append_assoc (a b c : string) :
  (a +:+ b) +:+ c = a +:+ (b +:+ c).
Proof.
  induction a as [|x a IH]; rewrite ?append_cons, ?append_nil.
  - reflexivity.
  - rewrite IH. reflexivity.
Qed.

Lemma block_prefix_inj (c1 c2 : BlockConfig) (s1 s2 : string) :
  block_prefix c1 +:+ s1 = block_prefix c2 +:+ s2 ->
  block_id c1 = block_id c2.
Proof.
  unfold block_prefix. intros Heq.
  rewrite !(append_assoc "block_") in Heq.
  apply (inj (String.app "block_")) in Heq.
  rewrite !append_separator in Heq.
  apply first_separator in Heq; [|apply pretty_Z_free..].
  apply (inj pretty) in Heq. exact Heq.
Qed.

Lemma block_layer_names (c : BlockConfig) (pf : DepthFrame) :
  map layer_name (block_layers c pf)
  = map (String.app (block_prefix c))
      ["expand_BN"; "expand_relu"; "depthwise"; "depthwise_BN";
       "depthwise_relu"; "project"; "project_BN"; "add"].
Proof. reflexivity. Qed.

Lemma constructed_names `{Backend} (c : BlockConfig) (name : option string)
    (st : Registry) :
  exists k,
    map layer_name (constructed st (snd (InvertedResBlock c name st)))
    = firstn k (map (String.app (block_prefix c))
                  ["expand_BN"; "expand_relu"; "depthwise"; "depthwise_BN";
                   "depthwise_relu"; "project"; "project_BN"; "add"]).
Proof.
  destruct (InvertedResBlock c name st) as [r st'] eqn:Hrun. cbn [snd].
  pose proof (InvertedResBlock_cases c name st r st' Hrun) as Hc.
  destruct (width c) as [w|e].
  - destruct Hc as (dn & Hal & _). cbv zeta in Hal.
    rewrite (constructed_app _ _ _ Hal), accepted_prefix_firstn.
    eexists. rewrite <- firstn_map, block_layer_names. reflexivity.
  - destruct Hc as [_ ->]. exists 0%nat.
    rewrite (constructed_app _ _ []); [reflexivity|].
    symmetry. apply app_nil_r.
Qed.

Lemma In_firstn {A : Type} (k : nat) (l : list A) (a : A) :
  In a (firstn k l) -> In a l.
Proof.
  intros Hin. rewrite <- (firstn_skipn k l). apply in_or_app. left. exact Hin.
Qed.

Lemma NoDup_firstn {A : Type} (k : nat) (l : list A) :
  NoDup l -> NoDup (firstn k l).
Proof.
  intros Hnd. rewrite <- (firstn_skipn k l) in Hnd.
  apply NoDup_app_remove_r in Hnd. exact Hnd.
Qed.

Lemma nth_error_firstn_Some {A : Type} (k i : nat) (l : list A) (a : A) :
  nth_error (firstn k l) i = Some a -> nth_error l i = Some a.
Proof.
  revert i l. induction k as [|k IH]; intros i l; [destruct i; discriminate|].
  destruct l as [|x l]; [destruct i; discriminate|].
  destruct i as [|i]; cbn [firstn nth_error]; [trivial|apply IH].
Qed.

(** X11: the layers one call of the builder constructs have pairwise
    different names; two calls with the same [block_id] give the layers
    they construct the same names, position by position, so that the
    names of the second call collide with those of the first; two calls
    with different [block_id] construct no two layers of the same name. *)
Theorem block_layer_names_collide_iff `{Backend} (c1 c2 : BlockConfig)
    (name1 name2 : option string) (st1 st2 : Registry) :
  let names1 :=
    map layer_name (constructed st1 (snd (InvertedResBlock c1 name1 st1))) in
  let names2 :=
    map layer_name (constructed st2 (snd (InvertedResBlock c2 name2 st2))) in
  NoDup names1
  /\ (block_id c1 = block_id c2 ->
      forall i a b, nth_error names1 i = Some a ->
                    nth_error names2 i = Some b -> a = b)
  /\ (block_id c1 <> block_id c2 ->
      forall n, In n names1 -> ~ In n names2).
Proof.
  cbv zeta.
  destruct (constructed_names c1 name1 st1) as [k1 ->].
  destruct (constructed_names c2 name2 st2) as [k2 ->].
  split; [|split].
  - apply NoDup_firstn. apply Finite.Injective_map_NoDup.
    + intros s t Hst. apply (inj (String.app _)) in Hst. exact Hst.
    + repeat constructor; cbn [In]; intuition discriminate.
  - intros Hid i a b Ha Hb.
    apply nth_error_firstn_Some in Ha, Hb.
    unfold block_prefix in Ha, Hb. rewrite Hid in Ha. congruence.
  - intros Hid n Hin1 Hin2.
    apply In_firstn in Hin1, Hin2.
    apply in_map_iff in Hin1 as (s1 & <- & _).
    apply in_map_iff in Hin2 as (s2 & Heq & _).
    apply Hid. symmetry. eapply block_prefix_inj. exact Heq.
Qed.

(** Two calls for [block_id] 0 on the symbolic backend: each constructs
    five layers, under the same five names. *)
Example stem_block_twice :
  let st1 := snd (InvertedResBlock stem_config None empty_registry) in
  let st2 := snd (InvertedResBlock stem_config None st1) in
  map layer_name (constructed empty_registry st1)
  = ["block_0_expand_BN"; "block_0_expand_relu"; "block_0_depthwise";
     "block_0_depthwise_BN"; "block_0_depthwise_relu"]
  /\ map layer_name (constructed st1 st2)
     = map layer_name (constructed empty_registry st1).
Proof. vm_compute. split; reflexivity. Qed.

(** ** Further properties of [InvertedResBlock.apply] *)

(** X12: an application constructs no layer and draws no uid, whatever the
    block and the input: the two constructor calls inside [apply]
    ([expand] and [pad]) are never reached, so the registry is left as it
    was found. *)
Theorem apply_leaves_registry `{Backend} (fr : BlockFrame)
    (inputs : Tensor) (st : Registry) :
  snd (InvertedResBlock_apply fr inputs st) = st.
Proof.
  destruct (Z.eq_dec (block_id (config fr)) 0) as [Hid|Hid].
  - unfold InvertedResBlock_apply, shape_of, call. rewrite Hid.
    unfold bindM, lift, ret. cbn [negb Z.eqb].
    destruct (int_shape inputs) as [sh|] eqn:Hsh; [|reflexivity].
    destruct (tuple_last sh) as [d|e]; [|reflexivity].
    rewrite residual_never_eligible.
    destruct (stride (config fr) =? 2).
    + rewrite CorrectPad_apply_eq, Hsh. reflexivity.
    + repeat match goal with
             | |- context [layer_call ?l ?a] =>
                 destruct (layer_call l a); [|reflexivity]
             end.
      reflexivity.
  - rewrite apply_expanding by assumption. reflexivity.
Qed.

(** X13: an application returns in one case only: [block_id == 0], a
    stride other than 2 and an input with a last dimension; it then
    returns what [depthwise], [depthwise_BN], [depthwise_relu], [project]
    and [project_BN] give when chained on the input. *)
Theorem apply_returns_iff `{Backend} (fr : BlockFrame) (inputs : Tensor)
    (st : Registry) (out : Tensor) :
  fst (InvertedResBlock_apply fr inputs st) = Ok out
  <-> block_id (config fr) = 0
      /\ stride (config fr) <> 2
      /\ (exists sh d, int_shape inputs = Some sh /\ tuple_last sh = Ok d)
      /\ (do x <- layer_call (depthwise_conv2d_1 fr) [inputs];
          do x <- layer_call (batch_norm_2 fr) [x];
          do x <- layer_call (activation_2 fr) [x];
          do x <- layer_call (conv2d_1 fr) [x];
          layer_call (batch_norm_3 fr) [x]) = Ok out.
Proof.
  split.
  - intros Hret.
    destruct (Z.eq_dec (block_id (config fr)) 0) as [Hid|Hid].
    2:{ rewrite apply_expanding in Hret by assumption. cbn [fst] in Hret.
        destruct (int_shape inputs) as [sh|]; [|discriminate].
        destruct (tuple_last sh) as [[n|]|e]; discriminate. }
    destruct (Z.eq_dec (stride (config fr)) 2) as [Hs|Hs].
    { exfalso. eapply apply_stride_2_raises; eassumption. }
    destruct (int_shape inputs) as [sh|] eqn:Hsh.
    2:{ unfold InvertedResBlock_apply, shape_of in Hret.
        rewrite Hsh in Hret. discriminate. }
    destruct (tuple_last sh) as [d|e] eqn:Hl.
    2:{ unfold InvertedResBlock_apply, shape_of in Hret.
        rewrite Hsh in Hret. unfold bindM, lift in Hret.
        rewrite Hl in Hret. discriminate. }
    split; [exact Hid|]. split; [exact Hs|]. split; [eauto|].
    rewrite <- Hret. symmetry. eapply apply_stem; eassumption.
  - intros (Hid & Hs & (sh & d & Hsh & Hl) & Hchain).
    rewrite <- Hchain. eapply apply_stem; eassumption.
Qed.

(** X14: on an input whose rank is unknown an application raises
    [TypeError], and on an input of rank 0 it raises [IndexError], before
    it looks at anything else. *)
Theorem apply_on_shapeless_input `{Backend} (fr : BlockFrame)
    (inputs : Tensor) (st : Registry) :
  match int_shape inputs with
  | None => fst (InvertedResBlock_apply fr inputs st) = Raise TypeError
  | Some [] => fst (InvertedResBlock_apply fr inputs st) = Raise IndexError
  | Some (_ :: _) => True
  end.
Proof.
  unfold InvertedResBlock_apply, shape_of.
  destruct (int_shape inputs) as [[|d sh]|]; [reflexivity|exact I|reflexivity].
Qed.

(** ** The width of the projection *)

Lemma fmul_one_exact (n : Z) :
  0 < n < 2 ^ 53 -> fmul (dyadic n 0) lit_1_0 = dyadic n 0.
Proof.
  intros Hn. pose proof (Zdigits2_range n Hn) as Hr.
  unfold fmul, SFmul, lit_1_0, dyadic. cbn [xorb].
  rewrite Pos2Z.inj_mul, dyadic_mantissa by assumption.
  set (m := n * 2 ^ (53 - Zdigits2 n)).
  assert (Hm : 0 < m) by (apply Z.mul_pos_pos; [lia|apply pow2_pos; lia]).
  assert (Hdm : Zdigits2 m = 53)
    by (unfold m; rewrite Zdigits2_shift by lia; lia).
  change (Z.pos 4503599627370496) with (2 ^ 52).
  assert (Hd : Zdigits2 (m * 2 ^ 52) = 105)
    by (rewrite Zdigits2_shift by lia; lia).
  rewrite binary_round_aux_exact; rewrite ?Hd.
  - replace (105 - 53) with 52 by lia.
    rewrite Z.div_mul by lia. f_equal; [|lia].
    unfold m. rewrite Z.shiftl_mul_pow2 by lia. reflexivity.
  - lia.
  - lia.
  - lia.
  - replace (105 - 53) with 52 by lia. apply Z.mod_mul. lia.
Qed.

Lemma int_of_float_dyadic (n : Z) :
  0 < n < 2 ^ 53 -> int_of_float (dyadic n 0) = Ok n.
Proof.
  intros Hn. pose proof (Zdigits2_range n Hn) as Hr.
  unfold int_of_float, dyadic.
  rewrite dyadic_mantissa by assumption. unfold cond_Zopp. f_equal.
  destruct (Z.leb_spec 0 (Zdigits2 n - 53 - 0)).
  - replace (53 - Zdigits2 n) with 0 by lia.
    replace (Zdigits2 n - 53 - 0) with 0 by lia.
    rewrite Z.shiftl_0_r. lia.
  - rewrite Z.shiftr_div_pow2 by lia.
    replace (- (Zdigits2 n - 53 - 0)) with (53 - Zdigits2 n) by lia.
    apply Z.div_mul. pose proof (pow2_pos (53 - Zdigits2 n)). lia.
Qed.

(** X15: with the width multiplier [alpha = 1.0], [int(filters * alpha)]
    on line 148 is [filters] exactly, for every positive filter count
    below [2^53]: the int converts to a double and the product by [1.0]
    is computed without rounding. *)
Theorem width_at_alpha_one (c : BlockConfig)
    (Ha : alpha c = lit_1_0) (Hf : 0 < filters c < 2 ^ 53) :
  width c = Ok (filters c).
Proof.
  unfold width, float_mul'. rewrite Ha, float_of_int_exact by assumption.
  cbn [bind]. rewrite fmul_one_exact by assumption.
  apply int_of_float_dyadic. assumption.
Qed.

Lemma width_at_alpha_one_witness :
  (alpha stem_config = lit_1_0 /\ 0 < filters stem_config < 2 ^ 53)
  /\ width stem_config = Ok 16.
Proof.
  split; [split; [reflexivity|cbn; lia]|].
  apply (width_at_alpha_one stem_config); [reflexivity|cbn; lia].
Defined.
